(** * A shallow embedding of qwik-city's markdown annotation pass

    Source: [packages/qwik-city/src/buildtime/markdown/rehype.ts].

    The pass walks a hast document tree, rewrites local markdown links,
    assigns slugs to headings, and prepends four synthetic [export const]
    bindings ([headings], [attributes], [breadcrumbs], [index]).

    Conventions of the embedding:
    - A JavaScript string is a [string] whose characters are its code
      units, read as the code points U+0000 to U+00FF; case folding and
      white space are those of JavaScript on these code points. Strings
      with a code unit above U+00FF are outside the embedding.
    - In-place mutation of the tree is a function returning the new tree.
    - The module-level [slugs] registry and the console are threaded as
      explicit state; a thrown exception is the [Throw] result. *)

From Stdlib Require Import String Ascii List Arith ZArith Lia Bool.
From stdpp Require Import gmap strings pretty list.

Import ListNotations.
Set Warnings "-register-all,-clear-no-such-hyp,-level-tolerance".
Local Open Scope string_scope.
Local Open Scope list_scope.

(* ===================================================================== *)
(** * Part I: definitions *)
(* ===================================================================== *)

(** ** JavaScript string primitives used by the pass *)

Module Js.

(** [toLowerCase] on one code point below U+0100: ['A'..'Z'] and the
    capital letters U+00C0 to U+00DE (all but the sign U+00D7) move up by
    32; every other character is kept. *)
Definition lower_char (c : ascii) : ascii :=
  let n := nat_of_ascii c in
  if ((65 <=? n)%nat && (n <=? 90)%nat)%bool ||
     ((192 <=? n)%nat && (n <=? 222)%nat && negb (n =? 215)%nat)%bool
  then ascii_of_nat (n + 32) else c.

Fixpoint toLowerCase (s : string) : string :=
  match s with
  | EmptyString => EmptyString
  | String c r => String (lower_char c) (toLowerCase r)
  end.

(** White space and line terminators removed by [String.prototype.trim],
    among the code points below U+0100: TAB, LF, VT, FF, CR, SPACE and the
    no-break space U+00A0. *)
Definition is_ws (c : ascii) : bool :=
  Ascii.is_space c || Ascii.eqb c (ascii_of_nat 160).

Fixpoint trimStart (s : string) : string :=
  match s with
  | EmptyString => EmptyString
  | String c r => if is_ws c then trimStart r else s
  end.

Fixpoint trimEnd (s : string) : string :=
  match s with
  | EmptyString => EmptyString
  | String c r =>
      match trimEnd r with
      | EmptyString => if is_ws c then EmptyString else String c EmptyString
      | r' => String c r'
      end
  end.

Definition trim (s : string) : string := trimEnd (trimStart s).

(** [s.startsWith(p)] *)
Definition startsWith (s p : string) : bool := String.prefix p s.

(** [s.endsWith(p)] *)
Definition endsWith (s p : string) : bool :=
  (String.length p <=? String.length s)%nat &&
  String.eqb (String.substring (String.length s - String.length p)
                               (String.length p) s) p.

(** [s.substring(0, n)]; a negative end index is clamped to 0 by
    JavaScript, which is what truncated subtraction on [nat] gives the
    callers below. *)
Definition substring0 (n : nat) (s : string) : string :=
  String.substring 0 n s.

(** [s.split(sep)] for a one-character separator. *)
Fixpoint split (sep : ascii) (s : string) : list string :=
  match s with
  | EmptyString => [EmptyString]
  | String c r =>
      if Ascii.eqb c sep then EmptyString :: split sep r
      else match split sep r with
           | h :: t => String c h :: t
           | [] => [String c EmptyString]
           end
  end.

(** [parts.pop()] keeps all but the last element. *)
Definition pop (parts : list string) : list string := removelast parts.

(** [parts.join(sep)] *)
Definition join (sep : string) (parts : list string) : string :=
  String.concat sep parts.

(** [s.includes(c)] for a character [c]. *)
Fixpoint mem (c : ascii) (s : string) : bool :=
  match s with
  | EmptyString => false
  | String x r => Ascii.eqb x c || mem c r
  end.

Fixpoint all_ws (s : string) : bool :=
  match s with
  | EmptyString => true
  | String x r => is_ws x && all_ws r
  end.

Fixpoint no_ws (s : string) : bool :=
  match s with
  | EmptyString => true
  | String x r => negb (is_ws x) && no_ws r
  end.

Definition dquote : string := String (ascii_of_nat 34) EmptyString.
Definition newline : string := String (ascii_of_nat 10) EmptyString.

End Js.

(** ** Results of fallible code *)

Inductive error :=
| TypeError (msg : string)   (* a JavaScript [TypeError] *)
| OutOfFuel.                 (* the model's loop bound was hit *)

Inductive result (A : Type) :=
| Ok (a : A)
| Throw (e : error).
Arguments Ok {A} a.
Arguments Throw {A} e.

Global Instance result_ret : MRet result := fun A a => Ok a.
Global Instance result_bind : MBind result := fun A B k m =>
  match m with
  | Ok a => k a
  | Throw e => Throw e
  end.

(** A stateful traversal of a list, left to right, stopping at the first
    exception. *)
Definition mapM {A B S} (f : A -> S -> result (B * S))
  : list A -> S -> result (list B * S) :=
  fix go (l : list A) (s : S) : result (list B * S) :=
    match l with
    | [] => Ok ([], s)
    | a :: r =>
        '(b, s1) ← f a s;
        '(r', s2) ← go r s1;
        Ok (b :: r', s2)
    end.

(** ** The host: Node's [path] and [fs], the slug function, the pathname
       utility *)

(** Modelled from the spec: the pass calls into code that is not part of
    [rehype.ts]: Node's [path.dirname], [path.resolve] and [fs.existsSync]
    ("filesystem existence check for a resolved absolute path"), the
    character-level function [slug] of the github-slugger package
    ("case-folded, whitespace-to-hyphen, non-alphanumeric stripped"), and
    [getPagePathname] of [../utils/pathname] ("an external
    pathname-derivation function"). They are parameters of the development:
    every property below holds for all of them. *)
Class Host := {
  Opts : Type;
  path_dirname : string -> string;
  path_resolve : string -> string -> string;
  existsSync : string -> bool;
  base_slug : string -> string;
  getPagePathname : Opts -> string -> string;
}.

(** ** The slug registry *)

Module Slugger.

(** [originalSlug + '-' + n] *)
Definition bump (o : string) (n : nat) : string :=
  o +:+ "-" +:+ pretty n.

(** Modelled from the spec: the class [Slugger] of github-slugger, whose
    registry [occurrences] maps every slug handed out so far to a counter
    and which appends "a numeric suffix -1, -2, ... on collision":
<<
    let result = slug(value); const originalSlug = result
    while (own.call(self.occurrences, result)) {
      self.occurrences[originalSlug]++
      result = originalSlug + '-' + self.occurrences[originalSlug]
    }
    self.occurrences[result] = 0
    return result
>>
    [fuel] bounds the number of times the loop body runs. *)
Fixpoint slug_loop (fuel : nat) (occ : gmap string nat) (o result : string)
  : option (string * gmap string nat) :=
  match occ !! result with
  | None => Some (result, <[result := 0]> occ)
  | Some _ =>
      match fuel with
      | 0 => None
      | S fuel' =>
          let n := S (default 0 (occ !! o)) in
          slug_loop fuel' (<[o := n]> occ) o (bump o n)
      end
  end.

(** The loop body runs at most once per registered slug. *)
Definition slug {host : Host} (occ : gmap string nat) (value : string)
  : option (string * gmap string nat) :=
  slug_loop (size occ) occ (base_slug value) (base_slug value).

Definition reset : gmap string nat := ∅.

End Slugger.

(** ** The document tree (hast, with the MDX node kinds the pass meets) *)

(** Values a hast property can hold. *)
Inductive propval :=
| PUndefined
| PNull
| PBool (b : bool)
| PNum (n : Z)
| PStr (s : string).

(** Values handed to [valueToEstree]: JSON-like literals. *)
Inductive jsval :=
| VUndefined
| VNull
| VBool (b : bool)
| VNum (n : Z)
| VStr (s : string)
| VArr (items : list jsval)
| VObj (fields : list (string * jsval)).

(** [Element]: [{type: 'element', tagName, properties?, children}];
    [Text]: [{type: 'text', value}];
    [Comment]: a literal node that is neither element nor text;
    [MdxJsx]: a parent node that is not an element (an MDX JSX element);
    [MdxjsEsm]: the synthetic node built by [createExport], kept as the
    exported identifier and the value whose literal expression tree
    [valueToEstree] builds. *)
Inductive node :=
| Element (tagName : string) (properties : option (gmap string propval))
          (children : list node)
| Text (value : string)
| Comment (value : string)
| MdxJsx (name : string) (children : list node)
| MdxjsEsm (identifierName : string) (init : jsval).

Record Root := mkRoot { children : list node }.

Module Hast.

(** Modelled from the spec: [headingRank] of hast-util-heading-rank, the
    rank of "a recognized heading element (levels 1-6)": the tag name,
    lower-cased, is [h] followed by one of the digits 1 to 6. *)
Definition headingRank (n : node) : option nat :=
  match n with
  | Element tagName _ _ =>
      match Js.toLowerCase tagName with
      | String "h" (String d EmptyString) =>
          let code := nat_of_ascii d in
          if ((48 <? code)%nat && (code <? 55)%nat)%bool
          then Some (code - 48) else None
      | _ => None
      end
  | _ => None
  end.

(** Modelled from the spec: [toString] of hast-util-to-string, the
    "concatenation of all descendant text, ignoring markup". *)
Fixpoint one (n : node) : string :=
  match n with
  | Text v => v
  | Element _ _ ch => String.concat "" (map one ch)
  | MdxJsx _ ch => String.concat "" (map one ch)
  | Comment _ => ""
  | MdxjsEsm _ _ => ""
  end.

Definition toString (n : node) : string :=
  match n with
  | Element _ _ ch => String.concat "" (map one ch)
  | MdxJsx _ ch => String.concat "" (map one ch)
  | Text v => v
  | Comment v => v
  | MdxjsEsm _ _ => ""
  end.

(** Modelled from the spec: [visit(tree, 'element', visitor)] of
    unist-util-visit: a pre-order walk "in document order" that calls the
    visitor on every node of type [element] and then descends into the
    node's children. The two visitors of this file assign only to fields
    of [node.properties], so a visitor returns the node's new properties. *)
Section Visit.
Context {S : Type}.
Variable visitor :
  node -> S -> result (option (gmap string propval) * S).

Fixpoint visit_node (n : node) (s : S) : result (node * S) :=
  match n with
  | Element tagName _ ch =>
      '(properties', s1) ← visitor n s;
      '(ch', s2) ← mapM visit_node ch s1;
      Ok (Element tagName properties' ch', s2)
  | MdxJsx name ch =>
      '(ch', s1) ← mapM visit_node ch s;
      Ok (MdxJsx name ch', s1)
  | Text _ | Comment _ | MdxjsEsm _ _ => Ok (n, s)
  end.

Definition visit (tree : Root) (s : S) : result (Root * S) :=
  '(ch, s') ← mapM visit_node (children tree) s;
  Ok (mkRoot ch, s').
End Visit.

End Hast.

(** ** Build context *)

Record PageHeading := mkHeading {
  heading_text : string;
  heading_id : string;
  heading_level : nat;
}.

Record PageBreadcrumb := mkBreadcrumb {
  crumb_text : string;
  crumb_href : string;
}.

(** Modelled from the spec: the types of [../types] are not part of the
    sources. A menu node is [{ text, href, items? }], a menu section is
    [{ pathname, items }], a route is [{ pathname, attributes }]. *)
Inductive MenuItem :=
| mkItem (text href : string) (items : option (list MenuItem)).

Definition item_text (i : MenuItem) : string :=
  match i with mkItem t _ _ => t end.
Definition item_href (i : MenuItem) : string :=
  match i with mkItem _ h _ => h end.
Definition item_items (i : MenuItem) : option (list MenuItem) :=
  match i with mkItem _ _ l => l end.

Record Menu := mkMenu {
  menu_pathname : string;
  menu_items : option (list MenuItem);
}.

Record PageRoute := mkRoute {
  route_pathname : string;
  route_attributes : option (list (string * jsval));
}.

Record BuildContext {host : Host} := mkContext {
  opts : Opts;
  routes : list PageRoute;
  menus : list Menu;
}.

(** ** The functions of [rehype.ts] *)

Section Rehype.
Context {host : Host}.

(** [createExport]: [mdast.children.unshift(mdxjsEsm)]. *)
Definition createExport (mdast : Root) (identifierName : string)
           (val : jsval) : Root :=
  mkRoot (MdxjsEsm identifierName val :: children mdast).

Definition isLocalHref (href : string) : bool :=
  let href := Js.toLowerCase href in
  negb (String.eqb href "" ||
        Js.startsWith href "#" ||
        Js.startsWith href "https://" ||
        Js.startsWith href "http://" ||
        Js.startsWith href "about:").

(** [value != null && value !== false], where [value] is the result of
    the chain of [&&]: [false] when the node is no element or lacks the own
    property, [undefined] when it has no [properties], the property's value
    otherwise; for an empty [propName] the chain stops at once with [''],
    which is neither null nor [false]. *)
Definition hasProperty (n : node) (propName : string) : bool :=
  if String.eqb propName "" then true
  else match n with
       | Element _ (Some properties) _ =>
           match properties !! propName with
           | None => false
           | Some PUndefined | Some PNull | Some (PBool false) => false
           | Some _ => true
           end
       | _ => false
       end.

(** [(node.properties && node.properties.href) || ''], the receiver of
    [.trim()]; a truthy value that is not a string has no [trim]. *)
Definition href_operand (properties : option (gmap string propval))
  : result string :=
  match properties with
  | None => Ok ""
  | Some p =>
      match p !! "href" with
      | None | Some PUndefined | Some PNull | Some (PBool false) => Ok ""
      | Some (PStr s) => Ok s
      | Some (PNum n) =>
          if Z.eqb n 0 then Ok ""
          else Throw (TypeError "trim is not a function")
      | Some (PBool true) => Throw (TypeError "trim is not a function")
      end
  end.

(** [node.properties.href = v] *)
Definition set_href (properties : option (gmap string propval))
           (v : string) : result (option (gmap string propval)) :=
  match properties with
  | Some p => Ok (Some (<["href" := PStr v]> p))
  | None => Throw (TypeError "cannot set properties of undefined")
  end.

(** The text passed to [console.warn]. *)
Definition link_warning (href sourcePath : string) : string :=
  Js.newline +:+ "The link " +:+ Js.dquote +:+ href +:+ Js.dquote +:+
  ", found within " +:+ Js.dquote +:+ sourcePath +:+ Js.dquote +:+
  ", does not have a matching source file." +:+ Js.newline.

(** The visitor of [updateContentLinks]; the state is the console. *)
Definition linkVisitor (sourcePath : string) (n : node)
           (console : list string)
  : result (option (gmap string propval) * list string) :=
  match n with
  | Element tagName properties _ =>
      if negb (String.eqb (Js.toLowerCase tagName) "a")
      then Ok (properties, console)
      else
        raw ← href_operand properties;
        let href := Js.trim raw in
        if negb (isLocalHref href) then Ok (properties, console)
        else
          let lowerHref := Js.toLowerCase href in
          if Js.endsWith lowerHref ".mdx" || Js.endsWith lowerHref ".md"
          then
            let mdxPath := path_resolve (path_dirname sourcePath) href in
            let mdxExists := existsSync mdxPath in
            if negb mdxExists
            then Ok (properties, console ++ [link_warning href sourcePath])
            else if Js.endsWith lowerHref ".mdx"
            then
              p ← set_href properties
                    (Js.substring0 (String.length href - 4) raw);
              Ok (p, console)
            else if Js.endsWith lowerHref ".md"
            then
              p ← set_href properties
                    (Js.substring0 (String.length href - 3) raw);
              Ok (p, console)
            else Ok (properties, console)
          else Ok (properties, console)
  | _ => Ok (None, console)
  end.

Definition updateContentLinks (mdast : Root) (sourcePath : string)
           (console : list string) : result (Root * list string) :=
  Hast.visit (linkVisitor sourcePath) mdast console.

(** The visitor of [exportContentHeadings]; the state is the registry of
    the module-level [slugs] and the local array [headings]. *)
Definition headingVisitor (n : node)
           (st : gmap string nat * list PageHeading)
  : result (option (gmap string propval) *
            (gmap string nat * list PageHeading)) :=
  match n with
  | Element _ properties _ =>
      match Hast.headingRank n, properties with
      | Some level, Some p =>
          if hasProperty n "id" then Ok (properties, st)
          else
            let text := Hast.toString n in
            match Slugger.slug (fst st) text with
            | Some (id, occ) =>
                Ok (Some (<["id" := PStr id]> p),
                    (occ, snd st ++ [mkHeading text id level]))
            | None => Throw OutOfFuel
            end
      | _, _ => Ok (properties, st)
      end
  | _ => Ok (None, st)
  end.

Definition heading_val (h : PageHeading) : jsval :=
  VObj [("text", VStr (heading_text h));
        ("id", VStr (heading_id h));
        ("level", VNum (Z.of_nat (heading_level h)))].

(** [slugs] is the registry as earlier documents left it. *)
Definition exportContentHeadings (mdast : Root) (slugs : gmap string nat)
  : result (Root * gmap string nat * list PageHeading) :=
  let slugs := Slugger.reset in
  '(mdast', (slugs', headings)) ←
    Hast.visit headingVisitor mdast (slugs, []);
  Ok (createExport mdast' "headings" (VArr (map heading_val headings)),
      slugs', headings).

Definition exportPageAttributes (ctx : BuildContext) (mdast : Root)
           (pathname : string) : Root :=
  let page :=
    find (fun p => String.eqb (route_pathname p) pathname) (routes ctx) in
  let attributes :=
    match page with
    | Some p => match route_attributes p with
                | Some a => a
                | None => []
                end
    | None => []
    end in
  createExport mdast "attributes" (VObj attributes).

Definition breadcrumb (i : MenuItem) : PageBreadcrumb :=
  mkBreadcrumb (item_text i) (item_href i).

Definition breadcrumb_val (b : PageBreadcrumb) : jsval :=
  VObj [("text", VStr (crumb_text b)); ("href", VStr (crumb_href b))].

(** The three nested [for] loops of [exportBreadcrumbs]. [Some l] is a
    [createExport(mdast, 'breadcrumbs', l); return], [None] is a loop that
    ran to its end. *)
Fixpoint loopC (pathname : string) (breadcrumbA breadcrumbB : PageBreadcrumb)
         (itemsC : list MenuItem) : option (list PageBreadcrumb) :=
  match itemsC with
  | [] => None
  | indexC :: rest =>
      let breadcrumbC := breadcrumb indexC in
      if String.eqb (item_href indexC) pathname
      then Some [breadcrumbA; breadcrumbB; breadcrumbC]
      else loopC pathname breadcrumbA breadcrumbB rest
  end.

Fixpoint loopB (pathname : string) (breadcrumbA : PageBreadcrumb)
         (itemsB : list MenuItem) : option (list PageBreadcrumb) :=
  match itemsB with
  | [] => None
  | indexB :: rest =>
      let breadcrumbB := breadcrumb indexB in
      if String.eqb (item_href indexB) pathname
      then Some [breadcrumbA; breadcrumbB]
      else
        match
          match item_items indexB with
          | Some itemsC => loopC pathname breadcrumbA breadcrumbB itemsC
          | None => None
          end
        with
        | Some l => Some l
        | None => loopB pathname breadcrumbA rest
        end
  end.

Fixpoint loopA (pathname : string) (itemsA : list MenuItem)
  : option (list PageBreadcrumb) :=
  match itemsA with
  | [] => None
  | indexA :: rest =>
      let breadcrumbA := breadcrumb indexA in
      if String.eqb (item_href indexA) pathname
      then Some [breadcrumbA]
      else
        match
          match item_items indexA with
          | Some itemsB => loopB pathname breadcrumbA itemsB
          | None => None
          end
        with
        | Some l => Some l
        | None => loopA pathname rest
        end
  end.

(** [ctx.menus.find((m) => m.pathname === menuPathname)] *)
Definition find_menu (ctx : BuildContext) (menuPathname : option string)
  : option Menu :=
  find (fun m => match menuPathname with
                 | Some p => String.eqb (menu_pathname m) p
                 | None => false
                 end) (menus ctx).

(** The value [exportBreadcrumbs] passes to [createExport]. *)
Definition breadcrumbs_of (ctx : BuildContext) (pathname : string)
           (menuPathname : option string) : list PageBreadcrumb :=
  match find_menu ctx menuPathname with
  | Some menu =>
      match menu_items menu with
      | Some itemsA =>
          match loopA pathname itemsA with
          | Some l => l
          | None => []
          end
      | None => []
      end
  | None => []
  end.

Definition exportBreadcrumbs (ctx : BuildContext) (mdast : Root)
           (pathname : string) (menuPathname : option string) : Root :=
  createExport mdast "breadcrumbs"
    (VArr (map breadcrumb_val (breadcrumbs_of ctx pathname menuPathname))).

Definition exportPageIndex (ctx : BuildContext) (mdast : Root)
           (indexPathname : option string) : Root :=
  createExport mdast "index"
    (VObj [("path", match indexPathname with
                    | Some p => VStr p
                    | None => VUndefined
                    end)]).

(** [for (let i = 0; i < 9; i++)]: [budget] is the number of iterations
    still allowed. *)
Fixpoint getMenuPathname_loop (budget : nat) (ctx : BuildContext)
         (pathname : string) : option string :=
  match budget with
  | 0 => None
  | S budget' =>
      match find (fun i => String.eqb (menu_pathname i) pathname)
                 (menus ctx) with
      | Some _ => Some pathname
      | None =>
          let parts := Js.split "/" pathname in
          let parts := Js.pop parts in
          let pathname := Js.join "/" parts in
          if String.eqb pathname "/" then None
          else getMenuPathname_loop budget' ctx pathname
      end
  end.

Definition getMenuPathname (ctx : BuildContext) (pathname : string)
  : option string :=
  getMenuPathname_loop 9 ctx pathname.

(** The transformer returned by [rehypePage]. The state is the registry
    of [slugs] and the console. *)
Definition rehypePage (ctx : BuildContext) (ast : Root)
           (vfile_path : string) (st : gmap string nat * list string)
  : result (Root * (gmap string nat * list string)) :=
  let mdast := ast in
  let sourcePath := vfile_path in
  let pathname := getPagePathname (opts ctx) vfile_path in
  let menuPathname := getMenuPathname ctx pathname in
  '(mdast, console) ← updateContentLinks mdast sourcePath (snd st);
  '(mdast, slugs, _) ← exportContentHeadings mdast (fst st);
  let mdast := exportPageAttributes ctx mdast pathname in
  let mdast := exportBreadcrumbs ctx mdast pathname menuPathname in
  let mdast := exportPageIndex ctx mdast menuPathname in
  Ok (mdast, (slugs, console)).

End Rehype.

(** ** Specification-level notions the claims are stated with *)

(** The element nodes below a node, in document (pre-order) order: the
    nodes on which [visit(tree, 'element', ...)] calls its visitor. *)
Fixpoint elements_of (n : node) : list node :=
  match n with
  | Element _ _ ch => n :: flat_map elements_of ch
  | MdxJsx _ ch => flat_map elements_of ch
  | Text _ | Comment _ | MdxjsEsm _ _ => []
  end.

Definition doc_elements (tree : Root) : list node :=
  flat_map elements_of (children tree).

(** Tag name and properties of a node, without its children. *)
Definition shallow (n : node) : option (string * option (gmap string propval)) :=
  match n with
  | Element t p _ => Some (t, p)
  | _ => None
  end.

Section SpecNotions.
Context {host : Host}.

(** The headings that get a slug: rank 1 to 6, a [properties] object, and
    no identifier already set. *)
Definition sluggable (n : node) : bool :=
  match Hast.headingRank n, n with
  | Some _, Element _ (Some _) _ => negb (hasProperty n "id")
  | _, _ => false
  end.

Definition rank_of (n : node) : nat := default 0 (Hast.headingRank n).

Definition sluggables (els : list node) : list node :=
  List.filter sluggable els.

(** The texts the registry is asked to slug, in document order. *)
Definition heading_texts (els : list node) : list string :=
  map Hast.toString (sluggables els).

(** Slugging a sequence of texts, one after the other, with one
    registry. *)
Fixpoint slug_all (occ : gmap string nat) (texts : list string)
  : option (list string * gmap string nat) :=
  match texts with
  | [] => Some ([], occ)
  | t :: rest =>
      match Slugger.slug occ t with
      | Some (id, occ1) =>
          match slug_all occ1 rest with
          | Some (ids, occ2) => Some (id :: ids, occ2)
          | None => None
          end
      | None => None
      end
  end.

(** The outline entries of the sluggable headings [hs] given their
    slugs. *)
Fixpoint entries (hs : list node) (ids : list string) : list PageHeading :=
  match hs, ids with
  | h :: hs', id :: ids' =>
      mkHeading (Hast.toString h) id (rank_of h) :: entries hs' ids'
  | _, _ => []
  end.

(** What the heading pass leaves in the elements [els] (in document
    order) when the slugs [ids] are handed out in that order. *)
Fixpoint assign (els : list node) (ids : list string)
  : list (option (string * option (gmap string propval))) :=
  match els with
  | [] => []
  | n :: rest =>
      if sluggable n then
        match n, ids with
        | Element t (Some p) _, id :: ids' =>
            Some (t, Some (<["id" := PStr id]> p)) :: assign rest ids'
        | _, _ => shallow n :: assign rest ids
        end
      else shallow n :: assign rest ids
  end.






(** What the walk of the heading pass does below a node, in terms of the
    node's elements in document order. *)
Definition walked (n : node) : Prop :=
  forall occ hs,
  exists ids occ' n',
    slug_all occ (heading_texts (elements_of n)) = Some (ids, occ') /\
    Hast.visit_node headingVisitor n (occ, hs) =
      Ok (n', (occ', hs ++ entries (sluggables (elements_of n)) ids)) /\
    map shallow (elements_of n') = assign (elements_of n) ids.

(** The link pass can read the [href] of [n]: it is absent, falsy or a
    string. *)
Definition href_typed (n : node) : bool :=
  match n with
  | Element t p _ =>
      negb (String.eqb (Js.toLowerCase t) "a") ||
      match href_operand p with
      | Ok _ => true
      | Throw _ => false
      end
  | _ => true
  end.

(** Depth-first, sequence-order enumeration of the root-first item paths
    of a menu, down to [depth] levels. *)
Fixpoint paths (depth : nat) (items : list MenuItem) : list (list MenuItem) :=
  match depth with
  | 0 => []
  | S d =>
      flat_map (fun i =>
                  [i] :: map (cons i)
                             (match item_items i with
                              | Some sub => paths d sub
                              | None => []
                              end)) items
  end.

Definition ends_at (pathname : string) (path : list MenuItem) : bool :=
  match last path with
  | Some i => String.eqb (item_href i) pathname
  | None => false
  end.

(** The breadcrumb search in the words of the specification: the first
    path, in depth-first order over 3 levels, whose last item has the
    page's pathname as [href]; the empty sequence when there is none. *)
Definition first_path (pathname : string) (items : list MenuItem)
  : list MenuItem :=
  default [] (find (ends_at pathname) (paths 3 items)).

(** The top-level items of the menu section [menuPathname], none when
    there is no such section or it has no [items]. *)
Definition section_items (ctx : BuildContext) (menuPathname : option string)
  : list MenuItem :=
  match find_menu ctx menuPathname with
  | Some menu => default [] (menu_items menu)
  | None => []
  end.

(** One truncation: drop the last [/]-separated segment. *)
Definition truncate (pathname : string) : string :=
  Js.join "/" (Js.pop (Js.split "/" pathname)).

Definition registered (ctx : BuildContext) (pathname : string) : bool :=
  existsb (fun m => String.eqb (menu_pathname m) pathname) (menus ctx).

(** The section search in the words of the specification, with the
    number of truncations as a parameter: look the pathname up; failing
    that truncate up to [truncations] times, giving up when a truncation
    yields the root and looking the pathname up after each other one. *)
Fixpoint nearest_section (truncations : nat) (ctx : BuildContext)
         (pathname : string) : option string :=
  if registered ctx pathname then Some pathname
  else match truncations with
       | 0 => None
       | S t =>
           let pathname := truncate pathname in
           if String.eqb pathname "/" then None
           else nearest_section t ctx pathname
       end.

(** [needle] occurs in [hay]. *)
Fixpoint includes (hay needle : string) : bool :=
  String.prefix needle hay ||
  match hay with
  | EmptyString => false
  | String _ r => includes r needle
  end.

End SpecNotions.

(** ** A POSIX host for the examples

    Concrete stand-ins for the parameters of [Host], used only to run the
    pass on example documents: the ASCII part of github-slugger's [slug],
    and [dirname] and [resolve] on slash-separated absolute paths. *)

Module Posix.

(** Characters github-slugger keeps, within ASCII: letters, digits,
    [-], [_] and the space (which becomes [-]). *)
Definition kept (c : ascii) : bool :=
  let n := nat_of_ascii c in
  ((97 <=? n)%nat && (n <=? 122)%nat) || ((48 <=? n)%nat && (n <=? 57)%nat) ||
  (n =? 45)%nat || (n =? 95)%nat || (n =? 32)%nat || (128 <=? n)%nat.

Fixpoint strip (s : string) : string :=
  match s with
  | EmptyString => EmptyString
  | String c r =>
      if kept c
      then String (if Ascii.eqb c " " then "-"%char else c) (strip r)
      else strip r
  end.

Definition slug (value : string) : string := strip (Js.toLowerCase value).

(** The non-empty segments of a path, with [.] dropped and [..]
    cancelling the segment before it. *)
Fixpoint normalize (acc : list string) (segs : list string) : list string :=
  match segs with
  | [] => rev acc
  | s :: rest =>
      if String.eqb s "" || String.eqb s "." then normalize acc rest
      else if String.eqb s ".." then normalize (tl acc) rest
      else normalize (s :: acc) rest
  end.

Definition dirname (p : string) : string :=
  match Js.join "/" (Js.pop (Js.split "/" p)) with
  | EmptyString => if Js.startsWith p "/" then "/" else "."
  | d => d
  end.

(** [resolve(from, to)] for an absolute [from] or [to]. *)
Definition resolve (from to : string) : string :=
  let segs := if Js.startsWith to "/" then Js.split "/" to
              else Js.split "/" from ++ Js.split "/" to in
  "/" +:+ Js.join "/" (normalize [] segs).

(** A host whose file system holds exactly [files] and whose published
    pathname is the source path itself. *)
Definition host (files : list string) : Host := {|
  Opts := unit;
  path_dirname := dirname;
  path_resolve := resolve;
  existsSync := fun p => existsb (String.eqb p) files;
  base_slug := slug;
  getPagePathname := fun _ p => p;
|}.

End Posix.

(** Example trees. *)
Definition anchor (href : string) (ch : list node) : node :=
  Element "a" (Some {["href" := PStr href]}) ch.

Definition heading (tag text : string) : node :=
  Element tag (Some ∅) [Text text].

(** ** Notions for the properties of the passes as a whole *)

(** [e'] is the element [e] with at most the property [key] changed: the
    same tag, the same text and the same other properties. *)
Definition same_but (key : string) (e e' : node) : Prop :=
  exists t p p' ch ch',
    e = Element t p ch /\ e' = Element t p' ch' /\
    delete key <$> p' = delete key <$> p /\
    Hast.toString e' = Hast.toString e.

(** [e'] is the element [e] after a call of [visitor] on it, in some
    state: the tag is kept, the properties are those the visitor returned,
    and the text below the element is the same. *)
Definition touched {S : Type}
           (visitor : node -> S -> result (option (gmap string propval) * S))
           (e e' : node) : Prop :=
  exists t p p' ch ch' s0 s1,
    e = Element t p ch /\ e' = Element t p' ch' /\
    visitor e s0 = Ok (p', s1) /\
    Hast.toString e' = Hast.toString e.

(** [path] is a root-first path of the menu: its first item is one of
    [items], and each further item is one of the [items] of the item
    before it. *)
Fixpoint chain (items : list MenuItem) (path : list MenuItem) : Prop :=
  match path with
  | [] => True
  | i :: rest => In i items /\ chain (default [] (item_items i)) rest
  end.

(** A message of the form [console.warn] prints for [sourcePath]. *)
Definition is_link_warning {host : Host} (sourcePath message : string) : Prop :=
  exists href, message = link_warning href sourcePath.

(* ===================================================================== *)
(** * Part II: properties *)
(* ===================================================================== *)

(** ** Strings *)

Lemma app_nil_l (t : string) : "" +:+ t = t.
Proof. reflexivity. Qed.

Lemma app_cons (a : ascii) (s t : string) :
  String a s +:+ t = String a (s +:+ t).
Proof. reflexivity. Qed.

Lemma length_app (s t : string) :
  String.length (s +:+ t) = String.length s + String.length t.
Proof.
  induction s as [|a s IH]; [reflexivity|].
  rewrite app_cons. simpl. now rewrite IH.
Qed.

Lemma mem_app (c : ascii) (s t : string) :
  Js.mem c (s +:+ t) = Js.mem c s || Js.mem c t.
Proof.
  induction s as [|a s IH]; [reflexivity|].
  rewrite app_cons. simpl. rewrite IH. now rewrite orb_assoc.
Qed.

(** The text after the last [-] of a string is determined by the string. *)
Lemma app_dash_inj (b c d1 d2 : string) :
  Js.mem "-" d1 = false -> Js.mem "-" d2 = false ->
  b +:+ "-" +:+ d1 = c +:+ "-" +:+ d2 -> b = c /\ d1 = d2.
Proof.
  intros H1 H2. revert c.
  induction b as [|x b IH]; intros [|y c].
  - change (String "-" d1 = String "-" d2 -> "" = "" /\ d1 = d2).
    intros [= ->]. done.
  - change (String "-" d1 = String y (c +:+ "-" +:+ d2) -> "" = String y c /\ d1 = d2).
    intros [= <- ->]. rewrite mem_app in H1.
    change (Js.mem "-" c || true = false) in H1.
    now rewrite orb_true_r in H1.
  - change (String x (b +:+ "-" +:+ d1) = String "-" d2 -> String x b = "" /\ d1 = d2).
    intros [= -> <-]. rewrite mem_app in H2.
    change (Js.mem "-" b || true = false) in H2.
    now rewrite orb_true_r in H2.
  - change (String x (b +:+ "-" +:+ d1) = String y (c +:+ "-" +:+ d2) ->
            String x b = String y c /\ d1 = d2).
    intros [= -> E]. destruct (IH _ E) as [-> ->]. done.
Qed.

Lemma pretty_N_go_no_dash (x : N) (s : string) :
  Js.mem "-" s = false -> Js.mem "-" (pretty_N_go x s) = false.
Proof.
  revert s. induction (N.lt_wf_0 x) as [x _ IH]; intros s Hs.
  assert (x = 0 ∨ 0 < x)%N as [->|?] by lia.
  - by rewrite pretty_N_go_0.
  - rewrite pretty_N_go_step by done. apply IH.
    { by apply N.div_lt. }
    simpl. rewrite Hs, orb_false_r.
    unfold pretty_N_char. by repeat case_match.
Qed.

Lemma pretty_nat_no_dash (n : nat) : Js.mem "-" (pretty n) = false.
Proof.
  unfold pretty, pretty_nat, pretty, pretty_N.
  case_decide; [reflexivity|]. by apply pretty_N_go_no_dash.
Qed.

(** ** The slug registry *)

Lemma bump_inj (b c : string) (n m : nat) :
  Slugger.bump b n = Slugger.bump c m -> b = c /\ n = m.
Proof.
  unfold Slugger.bump. intros E.
  apply app_dash_inj in E as [-> E]; auto using pretty_nat_no_dash.
  split; [done|]. by apply (inj pretty).
Qed.

Lemma bump_ne (b : string) (n : nat) : Slugger.bump b n <> b.
Proof.
  unfold Slugger.bump. intros E.
  apply (f_equal String.length) in E.
  rewrite !length_app in E. simpl in E. lia.
Qed.

(** What [slug_loop] returns when it returns: a slug that was free in the
    registry it started from, which is either the candidate it was entered
    with or the original slug with a counter above the registered one. *)
Lemma slug_loop_shape (fuel : nat) :
  forall (occ : gmap string nat) (o res r : string) (occ' : gmap string nat),
    Slugger.slug_loop fuel occ o res = Some (r, occ') ->
    occ !! r = None /\
    ((r = res /\ occ' = <[r := 0]> occ) \/
     (exists n, default 0 (occ !! o) < n /\ r = Slugger.bump o n /\
                is_Some (occ !! res) /\
                occ' = <[r := 0]> (<[o := n]> occ))).
Proof.
  induction fuel as [|fuel IH]; intros occ o res r occ'; simpl.
  - destruct (occ !! res) as [c0|] eqn:E; [done|]. intros [= <- <-]. auto.
  - destruct (occ !! res) as [c0|] eqn:E; [|intros [= <- <-]; auto].
    intros Hl. apply IH in Hl as [Hfree Hshape].
    assert (r <> o) as Hro by (intros ->; by rewrite lookup_insert_eq in Hfree).
    rewrite lookup_insert_ne in Hfree by done. split; [done|]. right.
    destruct Hshape as [[-> ->]|(n & Hn & -> & _ & ->)].
    + eexists. split; [|split; [reflexivity|split; [eauto|reflexivity]]]. lia.
    + exists n. rewrite lookup_insert_eq in Hn. simpl in Hn.
      split; [lia|]. split; [done|]. split; [eauto|].
      by rewrite insert_insert_eq.
Qed.

(** The loop ends: every pass through its body uses up one registered
    slug. *)
Lemma slug_loop_terminates (fuel : nat) :
  forall (occ : gmap string nat) (o res : string) (X : gset string),
    (forall m, default 0 (occ !! o) < m -> Slugger.bump o m <> res) ->
    (is_Some (occ !! res) -> res ∈ X) ->
    (forall m, default 0 (occ !! o) < m ->
               is_Some (occ !! Slugger.bump o m) -> Slugger.bump o m ∈ X) ->
    size X <= fuel ->
    is_Some (Slugger.slug_loop fuel occ o res).
Proof.
  induction fuel as [|fuel IH]; intros occ o res X Hne Hres Hin Hsz; simpl.
  - destruct (occ !! res) as [c0|] eqn:E; [|eauto].
    assert (res ∈ X) as HX by eauto.
    assert (size X ≠ 0) by (apply size_non_empty_iff; set_solver).
    lia.
  - destruct (occ !! res) as [c0|] eqn:E; [|eauto].
    assert (res ∈ X) as HX by eauto.
    set (c := default 0 (occ !! o)).
    apply (IH _ _ _ (X ∖ {[res]})).
    + intros m. rewrite lookup_insert_eq. simpl. intros Hm E'.
      apply bump_inj in E' as [_ ->]. lia.
    + intros Hs. rewrite lookup_insert_ne in Hs by apply not_eq_sym, bump_ne.
      apply elem_of_difference. split.
      * apply Hin; [lia|done].
      * rewrite elem_of_singleton. apply Hne. lia.
    + intros m. rewrite lookup_insert_eq. simpl. intros Hm Hs.
      rewrite lookup_insert_ne in Hs by apply not_eq_sym, bump_ne.
      apply elem_of_difference. split.
      * apply Hin; [fold c; lia|done].
      * rewrite elem_of_singleton. apply Hne. fold c. lia.
    + assert (size X = size (X ∖ {[res]}) + 1).
      { rewrite (union_difference_L {[res]} X) at 1 by set_solver.
        rewrite size_union by set_solver. rewrite size_singleton. lia. }
      lia.
Qed.

Section SluggerFacts.
Context {host : Host}.

(** [slugs.slug(value)] always returns. *)
Lemma slug_total (occ : gmap string nat) (value : string) :
  is_Some (Slugger.slug occ value).
Proof.
  unfold Slugger.slug.
  apply (slug_loop_terminates _ _ _ _ (dom occ)).
  - intros m _. apply bump_ne.
  - intros Hs. by apply elem_of_dom.
  - intros m _ Hs. by apply elem_of_dom.
  - by rewrite size_dom.
Qed.

(** It returns either the base slug, when that is free, or the base slug
    with a numeric suffix, and registers what it returns. *)
Lemma slug_shape (occ occ' : gmap string nat) (value r : string) :
  Slugger.slug occ value = Some (r, occ') ->
  occ !! r = None /\
  ((r = base_slug value /\ occ' = <[r := 0]> occ) \/
   (exists n, 1 <= n /\ default 0 (occ !! base_slug value) < n /\
              r = Slugger.bump (base_slug value) n /\
              is_Some (occ !! base_slug value) /\
              occ' = <[r := 0]> (<[base_slug value := n]> occ))).
Proof.
  unfold Slugger.slug. intros Hl.
  apply slug_loop_shape in Hl as [Hfree [?|(n & Hn & ? & ? & ?)]]; [auto|].
  split; [done|]. right. exists n. repeat split; try done. lia.
Qed.

Lemma slug_dom (occ occ' : gmap string nat) (value r : string) :
  Slugger.slug occ value = Some (r, occ') ->
  r ∉ dom occ /\ dom occ' = dom occ ∪ {[r]}.
Proof.
  intros Hl. apply slug_shape in Hl as [Hfree Hs].
  split; [by apply not_elem_of_dom|].
  destruct Hs as [[_ ->]|(n & _ & _ & _ & Ho & ->)].
  - rewrite dom_insert_L. set_solver.
  - rewrite !dom_insert_L. apply elem_of_dom in Ho. set_solver.
Qed.



Lemma slug_all_total (texts : list string) :
  forall occ, is_Some (slug_all occ texts).
Proof.
  induction texts as [|t texts IH]; intros occ; simpl; [eauto|].
  destruct (slug_total occ t) as [[id occ1] ->].
  destruct (IH occ1) as [[ids occ2] ->]. eauto.
Qed.

Lemma slug_all_length (texts : list string) :
  forall occ ids occ',
    slug_all occ texts = Some (ids, occ') -> length ids = length texts.
Proof.
  induction texts as [|t texts IH]; intros occ ids occ'; simpl.
  - by intros [= <- <-].
  - destruct (Slugger.slug occ t) as [[id occ1]|]; [|done].
    destruct (slug_all occ1 texts) as [[ids' occ2]|] eqn:E; [|done].
    intros [= <- <-]. simpl. f_equal. eauto.
Qed.

Lemma slug_all_app (l1 l2 : list string) :
  forall occ,
    slug_all occ (l1 ++ l2) =
    match slug_all occ l1 with
    | Some (ids1, occ1) =>
        match slug_all occ1 l2 with
        | Some (ids2, occ2) => Some (ids1 ++ ids2, occ2)
        | None => None
        end
    | None => None
    end.
Proof.
  induction l1 as [|t l1 IH]; intros occ; simpl.
  - by destruct (slug_all occ l2) as [[??]|].
  - destruct (Slugger.slug occ t) as [[id occ1]|]; [|done].
    rewrite IH. destruct (slug_all occ1 l1) as [[ids1 occ2]|]; [|done].
    by destruct (slug_all occ2 l2) as [[??]|].
Qed.

(** Slugs handed out one after the other are fresh and pairwise
    distinct. *)
Lemma slug_all_fresh (texts : list string) :
  forall occ ids occ',
    slug_all occ texts = Some (ids, occ') ->
    NoDup ids /\ (forall id, id ∈ ids -> id ∉ dom occ) /\
    dom occ' = dom occ ∪ list_to_set ids.
Proof.
  induction texts as [|t texts IH]; intros occ ids occ'; simpl.
  - intros [= <- <-]. split; [constructor|]. split; set_solver.
  - destruct (Slugger.slug occ t) as [[id occ1]|] eqn:E1; [|done].
    destruct (slug_all occ1 texts) as [[ids' occ2]|] eqn:E2; [|done].
    intros [= <- <-].
    apply slug_dom in E1 as [Hfree Hdom].
    apply IH in E2 as (Hnd & Hfr & Hdom2).
    split; [|split].
    + constructor; [|done]. intros Hin. apply Hfr in Hin.
      rewrite Hdom in Hin. set_solver.
    + intros x [->|Hin]%elem_of_cons; [done|].
      apply Hfr in Hin. rewrite Hdom in Hin. set_solver.
    + rewrite Hdom2, Hdom. set_solver.
Qed.

(** *** Numeric suffixes *)




(** *** The smallest free number *)







End SluggerFacts.

(** ** The tree walk *)

(** Induction over trees whose children are lists of trees. *)
Lemma node_ind' (P : node -> Prop) :
  (forall t p ch, Forall P ch -> P (Element t p ch)) ->
  (forall v, P (Text v)) ->
  (forall v, P (Comment v)) ->
  (forall name ch, Forall P ch -> P (MdxJsx name ch)) ->
  (forall i v, P (MdxjsEsm i v)) ->
  forall n, P n.
Proof.
  intros HE HT HC HJ HM. fix IH 1.
  intros [t p ch|v|v|name ch|i v].
  - apply HE. induction ch as [|c ch IHch]; constructor; [apply IH|apply IHch].
  - apply HT.
  - apply HC.
  - apply HJ. induction ch as [|c ch IHch]; constructor; [apply IH|apply IHch].
  - apply HM.
Qed.

Lemma mapM_length {A B S} (f : A -> S -> result (B * S)) (l : list A) :
  forall s l' s', mapM f l s = Ok (l', s') -> length l' = length l.
Proof.
  induction l as [|a l IH]; intros s l' s'; simpl.
  - by intros [= <- <-].
  - destruct (f a s) as [[b s1]|]; simpl; [|done].
    destruct (mapM f l s1) as [[r s2]|] eqn:E; simpl; [|done].
    intros [= <- <-]. simpl. f_equal. eauto.
Qed.

Lemma visit_node_element {S : Type}
      (f : node -> S -> result (option (gmap string propval) * S))
      (t : string) (p : option (gmap string propval)) (ch : list node) (s : S) :
  Hast.visit_node f (Element t p ch) s =
  ('(p', s1) ← f (Element t p ch) s;
   '(ch', s2) ← mapM (Hast.visit_node f) ch s1;
   Ok (Element t p' ch', s2)).
Proof. reflexivity. Qed.

Section HeadingPass.
Context {host : Host}.

Local Arguments sluggable : simpl never.
Local Arguments Hast.toString : simpl never.
Local Arguments rank_of : simpl never.
Local Arguments headingVisitor : simpl never.

Lemma headingVisitor_skip t p ch st :
  sluggable (Element t p ch) = false ->
  headingVisitor (Element t p ch) st = Ok (p, st).
Proof.
  unfold sluggable, headingVisitor.
  destruct (Hast.headingRank _); [|done].
  destruct p; [|done].
  by destruct (hasProperty _ _).
Qed.

Lemma headingVisitor_slug t p ch occ hs :
  sluggable (Element t p ch) = true ->
  exists pm,
    p = Some pm /\
    headingVisitor (Element t p ch) (occ, hs) =
    match Slugger.slug occ (Hast.toString (Element t p ch)) with
    | Some (id, occ1) =>
        Ok (Some (<["id" := PStr id]> pm),
            (occ1, hs ++ [mkHeading (Hast.toString (Element t p ch)) id
                                    (rank_of (Element t p ch))]))
    | None => Throw OutOfFuel
    end.
Proof.
  unfold sluggable, headingVisitor, rank_of.
  destruct (Hast.headingRank _) as [level|]; [|done].
  destruct p as [pm|]; [|done].
  destruct (hasProperty _ _); [done|]. intros _.
  exists pm. split; [done|]. simpl.
  by destruct (Slugger.slug _ _) as [[??]|].
Qed.

Lemma sluggable_shape n :
  sluggable n = true -> exists t pm ch, n = Element t (Some pm) ch.
Proof.
  unfold sluggable. destruct (Hast.headingRank n); [|done].
  destruct n as [t [pm|] ch| | | |]; try done. eauto.
Qed.

Lemma entries_app (a b : list node) (ids1 ids2 : list string) :
  length ids1 = length a ->
  entries (a ++ b) (ids1 ++ ids2) = entries a ids1 ++ entries b ids2.
Proof.
  revert ids1. induction a as [|n a IH]; intros [|id ids1]; simpl; try done.
  intros [= E]. f_equal. by apply IH.
Qed.

Lemma assign_app (a b : list node) (ids2 : list string) :
  forall ids1,
    length ids1 = length (sluggables a) ->
    assign (a ++ b) (ids1 ++ ids2) = assign a ids1 ++ assign b ids2.
Proof.
  induction a as [|n a IH]; intros ids1; simpl.
  - destruct ids1; [done|]. done.
  - destruct (sluggable n) eqn:Es; simpl.
    + destruct (sluggable_shape _ Es) as (t & pm & ch & ->).
      destruct ids1 as [|id ids1]; [done|]. intros [= E]. simpl.
      f_equal. by apply IH.
    + intros E. f_equal. by apply IH.
Qed.

Lemma walked_list (l : list node) :
  Forall walked l ->
  forall occ hs,
  exists ids occ' l',
    slug_all occ (heading_texts (flat_map elements_of l)) = Some (ids, occ') /\
    mapM (Hast.visit_node headingVisitor) l (occ, hs) =
      Ok (l', (occ', hs ++ entries (sluggables (flat_map elements_of l)) ids)) /\
    map shallow (flat_map elements_of l') =
      assign (flat_map elements_of l) ids.
Proof.
  induction 1 as [|n l Hn _ IH]; intros occ hs.
  - exists [], occ, []. simpl. by rewrite app_nil_r.
  - destruct (Hn occ hs) as (ids1 & occ1 & n' & E1 & V1 & A1).
    destruct (IH occ1 (hs ++ entries (sluggables (elements_of n)) ids1))
      as (ids2 & occ2 & l' & E2 & V2 & A2).
    exists (ids1 ++ ids2), occ2, (n' :: l').
    assert (length ids1 = length (sluggables (elements_of n))) as Hlen.
    { apply slug_all_length in E1. unfold heading_texts in E1.
      by rewrite length_map in E1. }
    simpl. unfold heading_texts, sluggables in *.
    rewrite List.filter_app, map_app, slug_all_app, E1, E2.
    split; [done|]. split.
    + rewrite V1. simpl. rewrite V2. simpl.
      rewrite entries_app by done. by rewrite app_assoc.
    + rewrite map_app, A1, A2. by rewrite assign_app.
Qed.

Lemma walked_all (n : node) : walked n.
Proof.
  induction n as [t p ch IH|v|v|name ch IH|i v] using node_ind';
    intros occ hs.
  - pose proof (walked_list _ IH) as Hl.
    destruct (sluggable (Element t p ch)) eqn:Es.
    + destruct (headingVisitor_slug t p ch occ hs Es) as (pm & -> & Ev).
      destruct (slug_total occ (Hast.toString (Element t (Some pm) ch)))
        as [[id occ1] Eid].
      rewrite Eid in Ev.
      destruct (Hl occ1 (hs ++ [mkHeading
                  (Hast.toString (Element t (Some pm) ch)) id
                  (rank_of (Element t (Some pm) ch))]))
        as (ids2 & occ2 & ch' & E2 & V2 & A2).
      exists (id :: ids2), occ2,
             (Element t (Some (<["id" := PStr id]> pm)) ch').
      split; [|split].
      * unfold heading_texts, sluggables in *. simpl. rewrite Es. simpl.
        by rewrite Eid, E2.
      * simpl. rewrite Ev. simpl. rewrite V2. simpl.
        unfold sluggables. simpl. rewrite Es. simpl.
        by rewrite <- app_assoc.
      * simpl. rewrite Es. by rewrite A2.
    + destruct (Hl occ hs) as (ids2 & occ2 & ch' & E2 & V2 & A2).
      exists ids2, occ2, (Element t p ch').
      split; [|split].
      * unfold heading_texts, sluggables in *. simpl. by rewrite Es.
      * simpl. rewrite (headingVisitor_skip t p ch (occ, hs) Es). simpl.
        rewrite V2. simpl. unfold sluggables. simpl. by rewrite Es.
      * simpl. rewrite Es. by rewrite A2.
  - exists [], occ, (Text v). simpl. by rewrite app_nil_r.
  - exists [], occ, (Comment v). simpl. by rewrite app_nil_r.
  - destruct (walked_list _ IH occ hs) as (ids2 & occ2 & ch' & E2 & V2 & A2).
    exists ids2, occ2, (MdxJsx name ch'). simpl.
    split; [done|]. split; [|done]. by rewrite V2.
  - exists [], occ, (MdxjsEsm i v). simpl. by rewrite app_nil_r.
Qed.

End HeadingPass.

(** ** The heading pass on a document *)

Section HeadingClaims.
Context {host : Host}.

(** [exportContentHeadings] always completes; its outline and the
    identifiers it writes are those of slugging the sluggable headings in
    document order, starting from an empty registry. *)
Lemma exportContentHeadings_spec (mdast : Root) (slugs : gmap string nat) :
  exists ids slugs' mdast',
    slug_all ∅ (heading_texts (doc_elements mdast)) = Some (ids, slugs') /\
    exportContentHeadings mdast slugs =
      Ok (createExport mdast' "headings"
            (VArr (map heading_val
                       (entries (sluggables (doc_elements mdast)) ids))),
          slugs', entries (sluggables (doc_elements mdast)) ids) /\
    map shallow (doc_elements mdast') = assign (doc_elements mdast) ids /\
    length (children mdast') = length (children mdast).
Proof.
  destruct mdast as [ch].
  destruct (walked_list ch) with (occ := (∅ : gmap string nat))
                                 (hs := @nil PageHeading)
    as (ids & occ' & ch' & E & V & A).
  { apply Forall_forall. intros n _. apply walked_all. }
  exists ids, occ', (mkRoot ch'). split; [done|].
  split; [|split; [done|by apply mapM_length in V]].
  unfold exportContentHeadings, Hast.visit, Slugger.reset. simpl.
  rewrite V. reflexivity.
Qed.

Lemma entries_ids (hs : list node) :
  forall ids, length ids = length hs ->
              map heading_id (entries hs ids) = ids.
Proof.
  induction hs as [|h hs IH]; intros [|id ids]; simpl; try done.
  intros [= E]. f_equal. by apply IH.
Qed.


Lemma entries_levels (hs : list node) :
  forall ids, length ids = length hs ->
              map heading_level (entries hs ids) = map rank_of hs.
Proof.
  induction hs as [|h hs IH]; intros [|id ids]; simpl; try done.
  intros [= E]. f_equal. by apply IH.
Qed.

Lemma slug_all_ids_length (els : list node) occ ids occ' :
  slug_all occ (heading_texts els) = Some (ids, occ') ->
  length ids = length (sluggables els).
Proof.
  intros E. apply slug_all_length in E.
  unfold heading_texts in E. by rewrite length_map in E.
Qed.



(** C2. A heading whose [id] property holds a value that is neither
    null, undefined nor [false] is left as it is by the visitor: same
    properties, same registry, no outline entry. On a whole document the
    outline lists exactly the sluggable headings (rank 1 to 6, a
    [properties] object, no such [id]) in document order, each with the
    slug written into the tree; every other element keeps its
    properties. *)
Theorem C2_identified_headings_skipped
        (t : string) (pm : gmap string propval) (ch : list node)
        (v : propval) (st : gmap string nat * list PageHeading) :
  pm !! "id" = Some v ->
  v <> PNull -> v <> PUndefined -> v <> PBool false ->
  headingVisitor (Element t (Some pm) ch) st = Ok (Some pm, st) /\
  sluggable (Element t (Some pm) ch) = false /\
  forall (mdast : Root) (slugs : gmap string nat),
  exists mdast' slugs' headings,
    exportContentHeadings mdast slugs = Ok (mdast', slugs', headings) /\
    map (fun h => (heading_text h, heading_level h)) headings =
      map (fun n => (Hast.toString n, rank_of n))
          (sluggables (doc_elements mdast)) /\
    map shallow (doc_elements mdast') =
      assign (doc_elements mdast) (map heading_id headings).
Proof.
  intros Hid Hn Hu Hf.
  assert (hasProperty (Element t (Some pm) ch) "id" = true) as Hp.
  { unfold hasProperty. simpl. rewrite Hid. by destruct v as [| |[]| |]. }
  split; [|split].
  - unfold headingVisitor. rewrite Hp.
    by destruct (Hast.headingRank _).
  - unfold sluggable. rewrite Hp. by destruct (Hast.headingRank _).
  - intros mdast slugs.
    destruct (exportContentHeadings_spec mdast slugs)
      as (ids & slugs' & mdast' & E & X & A & _).
    pose proof (slug_all_ids_length _ _ _ _ E) as Hlen.
    eexists _, _, _. split; [exact X|]. split.
    + clear -Hlen. revert ids Hlen.
      induction (sluggables (doc_elements mdast)) as [|n l IH];
        intros [|id ids]; simpl; try done.
      intros [= E]. f_equal. by apply IH.
    + rewrite entries_ids by done. exact A.
Qed.

(** C9. An element without a [properties] object is passed over by the
    heading pass whatever its tag, headings included: it has no
    identifier, gets none, the registry and the outline stay as they
    are, and the walk goes on into its children. *)
Theorem C9_heading_without_properties
        (t : string) (ch : list node)
        (st : gmap string nat * list PageHeading) :
  hasProperty (Element t None ch) "id" = false /\
  headingVisitor (Element t None ch) st = Ok (None, st) /\
  sluggable (Element t None ch) = false /\
  Hast.visit_node headingVisitor (Element t None ch) st =
    ('(ch', st') ← mapM (Hast.visit_node headingVisitor) ch st;
     Ok (Element t None ch', st')).
Proof.
  assert (headingVisitor (Element t None ch) st = Ok (None, st)) as Hv.
  { unfold headingVisitor. by destruct (Hast.headingRank _). }
  split; [done|]. split; [done|]. split.
  - unfold sluggable. by destruct (Hast.headingRank _).
  - rewrite visit_node_element, Hv. reflexivity.
Qed.

End HeadingClaims.

(** ** Breadcrumbs *)

Lemma find_app {A} (f : A -> bool) (l1 l2 : list A) :
  find f (l1 ++ l2) =
  match find f l1 with
  | Some x => Some x
  | None => find f l2
  end.
Proof.
  induction l1 as [|a l1 IH]; simpl; [done|]. by destruct (f a).
Qed.

Section BreadcrumbFacts.
Context {host : Host}.

Lemma paths_nonempty (d : nat) :
  forall items p, In p (paths d items) -> p <> [].
Proof.
  induction d as [|d IH]; intros items p; simpl; [done|].
  rewrite in_flat_map. intros (i & _ & Hin).
  simpl in Hin. destruct Hin as [<-|Hin]; [done|].
  apply in_map_iff in Hin as (q & <- & _). done.
Qed.

Lemma find_ends_at_cons (x : string) (i : MenuItem)
      (l : list (list MenuItem)) :
  (forall p, In p l -> p <> []) ->
  find (ends_at x) (map (cons i) l) = cons i <$> find (ends_at x) l.
Proof.
  induction l as [|p l IH]; intros Hne; simpl; [done|].
  assert (ends_at x (i :: p) = ends_at x p) as ->.
  { unfold ends_at. destruct p as [|j p]; [|done].
    exfalso. apply (Hne []); [by left|done]. }
  destruct (ends_at x p); [done|]. apply IH.
  intros q Hq. apply Hne. by right.
Qed.

Lemma find_paths_step (x : string) (d : nat) (i : MenuItem)
      (rest : list MenuItem) :
  find (ends_at x) (paths (S d) (i :: rest)) =
  if String.eqb (item_href i) x then Some [i]
  else match cons i <$> find (ends_at x)
                          (match item_items i with
                           | Some sub => paths d sub
                           | None => []
                           end) with
       | Some p => Some p
       | None => find (ends_at x) (paths (S d) rest)
       end.
Proof.
  change (paths (S d) (i :: rest))
    with (([i] :: map (cons i) (match item_items i with
                                | Some sub => paths d sub
                                | None => []
                                end)) ++ paths (S d) rest).
  rewrite find_app. simpl find at 1.
  change (ends_at x [i]) with (String.eqb (item_href i) x).
  destruct (String.eqb (item_href i) x); [done|].
  rewrite find_ends_at_cons; [done|].
  destruct (item_items i); [apply paths_nonempty|done].
Qed.

Lemma loopC_paths (x : string) (a b : MenuItem) (cs : list MenuItem) :
  loopC x (breadcrumb a) (breadcrumb b) cs =
  (fun p => breadcrumb a :: breadcrumb b :: map breadcrumb p)
    <$> find (ends_at x) (paths 1 cs).
Proof.
  induction cs as [|c cs IH]; [done|].
  rewrite find_paths_step. simpl loopC.
  destruct (String.eqb (item_href c) x); [done|].
  rewrite IH. by destruct (item_items c).
Qed.

Lemma loopB_paths (x : string) (a : MenuItem) (bs : list MenuItem) :
  loopB x (breadcrumb a) bs =
  (fun p => breadcrumb a :: map breadcrumb p)
    <$> find (ends_at x) (paths 2 bs).
Proof.
  induction bs as [|b bs IH]; [done|].
  rewrite find_paths_step. simpl loopB.
  destruct (String.eqb (item_href b) x); [done|].
  rewrite IH. destruct (item_items b) as [cs|]; [|done].
  rewrite loopC_paths.
  by destruct (find (ends_at x) (paths 1 cs)).
Qed.

Lemma loopA_paths (x : string) (items : list MenuItem) :
  loopA x items = map breadcrumb <$> find (ends_at x) (paths 3 items).
Proof.
  induction items as [|a items IH]; [done|].
  rewrite find_paths_step. simpl loopA.
  destruct (String.eqb (item_href a) x); [done|].
  rewrite IH. destruct (item_items a) as [bs|]; [|done].
  rewrite loopB_paths.
  by destruct (find (ends_at x) (paths 2 bs)).
Qed.

(** C6. Whatever the menu table, the menu section and the page's
    pathname, [exportBreadcrumbs] puts exactly one binding in front of the
    tree, named [breadcrumbs], whose value is the array of [{text, href}]
    objects of the first match of a depth-first, sequence-order search
    over 3 levels of the section's items, compared by string equality and
    listed root first, and the empty array when nothing matches. For the
    menu [A -> B] and the pathname [/a/b] the binding holds
    [[{text: A, href: /a}; {text: B, href: /a/b}]]. *)
Theorem C6_breadcrumbs_first_match :
  (forall (ctx : BuildContext) (mdast : Root) (pathname : string)
          (menuPathname : option string),
      children (exportBreadcrumbs ctx mdast pathname menuPathname) =
      MdxjsEsm "breadcrumbs"
        (VArr (map (fun i => VObj [("text", VStr (item_text i));
                                   ("href", VStr (item_href i))])
                   (first_path pathname (section_items ctx menuPathname))))
      :: children mdast) /\
  (forall (o : Opts) (rs : list PageRoute) (section : string) (mdast : Root),
      children
        (exportBreadcrumbs
           (mkContext host o rs
              [mkMenu section
                 (Some [mkItem "A" "/a" (Some [mkItem "B" "/a/b" None])])])
           mdast "/a/b" (Some section)) =
      MdxjsEsm "breadcrumbs"
        (VArr [VObj [("text", VStr "A"); ("href", VStr "/a")];
               VObj [("text", VStr "B"); ("href", VStr "/a/b")]])
      :: children mdast).
Proof.
  split.
  - intros ctx mdast pathname menuPathname.
    unfold exportBreadcrumbs, createExport. simpl. do 3 f_equal.
    unfold breadcrumbs_of, section_items, first_path.
    destruct (find_menu ctx menuPathname) as [menu|]; [|done].
    destruct (menu_items menu) as [items|]; [|done].
    change (default [] (Some items)) with items.
    rewrite loopA_paths.
    destruct (find (ends_at pathname) (paths 3 items)) as [path|]; [|done].
    simpl. by rewrite map_map.
  - intros o rs section mdast.
    unfold exportBreadcrumbs, breadcrumbs_of, find_menu. simpl.
    by rewrite String.eqb_refl.
Qed.

End BreadcrumbFacts.

(** ** The nearest menu section *)

Section IndexFacts.
Context {host : Host}.

Lemma find_registered (ctx : BuildContext) (pathname : string) :
  match find (fun i => String.eqb (menu_pathname i) pathname) (menus ctx) with
  | Some _ => true
  | None => false
  end = registered ctx pathname.
Proof.
  unfold registered. induction (menus ctx) as [|m l IH]; simpl; [done|].
  by destruct (String.eqb (menu_pathname m) pathname).
Qed.

Lemma getMenuPathname_loop_nearest (n : nat) :
  forall (ctx : BuildContext) (pathname : string),
    getMenuPathname_loop (S n) ctx pathname = nearest_section n ctx pathname.
Proof.
  induction n as [|n IH]; intros ctx pathname.
  - simpl. rewrite <- find_registered.
    destruct (find _ _); [done|]. by destruct (String.eqb _ _).
  - change (getMenuPathname_loop (S (S n)) ctx pathname)
      with (match find (fun i => String.eqb (menu_pathname i) pathname)
                       (menus ctx) with
            | Some _ => Some pathname
            | None =>
                if String.eqb (truncate pathname) "/" then None
                else getMenuPathname_loop (S n) ctx (truncate pathname)
            end).
    rewrite IH. simpl nearest_section. rewrite <- find_registered.
    by destruct (find _ _).
Qed.

(** C7, as amended. [getMenuPathname] looks the pathname itself up
    first and then after each of at most 8 truncations of the last
    [/]-separated segment, 9 lookups in all; it returns the first
    registered pathname and no section when a truncation yields [/] or
    the 9 lookups are used up. The [index] binding holds that result as
    [path]. For [/a/b/c] and a table with only [/a] the result is [/a]. *)
Theorem C7_nearest_section_within_budget :
  (forall (ctx : BuildContext) (pathname : string),
      getMenuPathname ctx pathname = nearest_section 8 ctx pathname) /\
  (forall (ctx : BuildContext) (mdast : Root) (pathname : string),
      children (exportPageIndex ctx mdast (getMenuPathname ctx pathname)) =
      MdxjsEsm "index"
        (VObj [("path", match nearest_section 8 ctx pathname with
                        | Some p => VStr p
                        | None => VUndefined
                        end)]) :: children mdast) /\
  (forall (o : Opts) (rs : list PageRoute) (items : option (list MenuItem)),
      getMenuPathname (mkContext host o rs [mkMenu "/a" items]) "/a/b/c" =
      Some "/a").
Proof.
  split; [|split].
  - intros. apply getMenuPathname_loop_nearest.
  - intros. unfold exportPageIndex, getMenuPathname.
    by rewrite getMenuPathname_loop_nearest.
  - intros. reflexivity.
Qed.

End IndexFacts.

(** ** Trimming and case folding *)

Lemma ws_lower (c : ascii) : Js.is_ws c = true -> Js.lower_char c = c.
Proof.
  destruct c as [[] [] [] [] [] [] [] []]; vm_compute;
    solve [reflexivity | discriminate].
Qed.

Lemma trimEnd_cons (c : ascii) (r : string) :
  Js.is_ws c = false -> Js.trimEnd (String c r) = String c (Js.trimEnd r).
Proof. intros E. simpl. rewrite E. by destruct (Js.trimEnd r). Qed.

Lemma trimStart_all_ws (s : string) : Js.all_ws s = true -> Js.trimStart s = "".
Proof.
  induction s as [|c s IH]; simpl; [done|].
  intros [Hc Hs]%andb_true_iff. rewrite Hc. auto.
Qed.

Lemma trim_all_ws (s : string) : Js.all_ws s = true -> Js.trim s = "".
Proof. intros E. unfold Js.trim. by rewrite trimStart_all_ws. Qed.

(** The no-break space is trimmed like the ASCII white space. *)
Lemma trim_no_break_space :
  Js.trim (String (ascii_of_nat 160) " ./a.md" +:+
           String (ascii_of_nat 160) "") = "./a.md".
Proof. reflexivity. Qed.

Lemma prefix_lower_head (a : ascii) (p : string) (s : string) :
  String.prefix (String a p) (Js.toLowerCase s) = true ->
  exists c r, s = String c r /\ a = Js.lower_char c /\
              String.prefix p (Js.toLowerCase r) = true.
Proof.
  destruct s as [|c r]; simpl; [done|].
  destruct (ascii_dec a (Js.lower_char c)); [|done]. eauto.
Qed.

Lemma prefix_lower_not_ws (a c : ascii) :
  Js.is_ws a = false -> a = Js.lower_char c -> Js.is_ws c = false.
Proof.
  intros Ha ->. destruct (Js.is_ws c) eqn:E; [|done].
  rewrite ws_lower in Ha by done. congruence.
Qed.

(** A prefix without white space survives trimming, also up to case. *)
Lemma prefix_lower_trimEnd (p : string) :
  forall s, Js.no_ws p = true ->
            String.prefix p (Js.toLowerCase s) = true ->
            String.prefix p (Js.toLowerCase (Js.trimEnd s)) = true.
Proof.
  induction p as [|a p IH]; intros s Hp Hs.
  - by destruct (Js.toLowerCase (Js.trimEnd s)).
  - simpl in Hp. apply andb_true_iff in Hp as [Ha Hp].
    apply negb_true_iff in Ha.
    apply prefix_lower_head in Hs as (c & r & -> & Hc & Hr).
    rewrite trimEnd_cons by eauto using prefix_lower_not_ws.
    simpl. destruct (ascii_dec a (Js.lower_char c)); [|done]. auto.
Qed.

Lemma prefix_lower_trim (p s : string) :
  p <> "" -> Js.no_ws p = true ->
  String.prefix p (Js.toLowerCase s) = true ->
  String.prefix p (Js.toLowerCase (Js.trim s)) = true.
Proof.
  intros Hne Hp Hs. unfold Js.trim.
  assert (Js.trimStart s = s) as ->; [|by apply prefix_lower_trimEnd].
  destruct p as [|a p]; [done|]. simpl in Hp.
  apply andb_true_iff in Hp as [Ha _]. apply negb_true_iff in Ha.
  apply prefix_lower_head in Hs as (c & r & -> & Hc & _).
  simpl. by rewrite (prefix_lower_not_ws a c).
Qed.

Lemma prefix_cons (a b : ascii) (p s : string) :
  String.prefix (String a p) (String b s) =
  if ascii_dec a b then String.prefix p s else false.
Proof. reflexivity. Qed.

Lemma prefix_nil (s : string) : String.prefix "" s = true.
Proof. by destruct s. Qed.

Lemma prefix_hash_lower (s : string) :
  Js.startsWith s "#" = true -> Js.startsWith (Js.toLowerCase s) "#" = true.
Proof.
  unfold Js.startsWith. destruct s as [|c r]; [done|].
  rewrite prefix_cons. destruct (ascii_dec "#" c) as [<-|]; [|done].
  intros _. change (Js.toLowerCase (String "#" r))
    with (String "#"%char (Js.toLowerCase r)).
  rewrite prefix_cons. destruct (ascii_dec "#" "#"); [|done].
  apply prefix_nil.
Qed.

Lemma prefix_app (x t : string) : String.prefix x (x +:+ t) = true.
Proof.
  induction x as [|a x IH]; [apply prefix_nil|].
  rewrite app_cons, prefix_cons. by destruct (ascii_dec a a).
Qed.

Lemma includes_unfold (h x : string) :
  includes h x =
  String.prefix x h || match h with
                       | EmptyString => false
                       | String _ r => includes r x
                       end.
Proof. by destruct h. Qed.

Lemma includes_prefix (h x : string) :
  String.prefix x h = true -> includes h x = true.
Proof. intros E. rewrite includes_unfold. by rewrite E. Qed.

Lemma includes_here (x t : string) : includes (x +:+ t) x = true.
Proof. apply includes_prefix, prefix_app. Qed.

Lemma includes_later (a t x : string) :
  includes t x = true -> includes (a +:+ t) x = true.
Proof.
  intros E. induction a as [|c a IH]; [done|].
  rewrite app_cons, includes_unfold, IH. apply orb_true_r.
Qed.

(** ** The link pass *)

Section LinkFacts.
Context {host : Host}.

Local Arguments Js.trim : simpl never.
Local Arguments Js.toLowerCase : simpl never.
Local Arguments Js.endsWith : simpl never.
Local Arguments isLocalHref : simpl never.
Local Arguments String.eqb : simpl never.

Lemma isLocalHref_nonlocal (href : string) :
  href = "" \/
  Js.startsWith href "#" = true \/
  Js.startsWith (Js.toLowerCase href) "https://" = true \/
  Js.startsWith (Js.toLowerCase href) "http://" = true \/
  Js.startsWith (Js.toLowerCase href) "about:" = true ->
  isLocalHref (Js.trim href) = false.
Proof.
  unfold isLocalHref, Js.startsWith.
  intros [->|[E|[E|[E|E]]]]; [done|..].
  - apply prefix_hash_lower, prefix_lower_trim in E; [|done..].
    unfold Js.startsWith in E. rewrite E. by rewrite orb_true_r.
  - apply prefix_lower_trim in E; [|done..].
    rewrite E. by rewrite !orb_true_r.
  - apply prefix_lower_trim in E; [|done..].
    rewrite E. by rewrite !orb_true_r.
  - apply prefix_lower_trim in E; [|done..].
    rewrite E. by rewrite !orb_true_r.
Qed.

(** An element whose trimmed [href] is not local is left alone. *)
Lemma linkVisitor_nonlocal sourcePath t pm ch console s :
  pm !! "href" = Some (PStr s) ->
  isLocalHref (Js.trim s) = false ->
  linkVisitor sourcePath (Element t (Some pm) ch) console =
  Ok (Some pm, console).
Proof.
  intros Hh Hl. unfold linkVisitor.
  destruct (negb _); [done|].
  unfold href_operand. rewrite Hh. simpl. by rewrite Hl.
Qed.

Lemma linkVisitor_no_href sourcePath t pm ch console :
  pm !! "href" = None ->
  linkVisitor sourcePath (Element t (Some pm) ch) console =
  Ok (Some pm, console).
Proof.
  intros Hh. unfold linkVisitor.
  destruct (negb _); [done|].
  unfold href_operand. by rewrite Hh.
Qed.

Lemma linkVisitor_no_properties sourcePath t ch console :
  linkVisitor sourcePath (Element t None ch) console = Ok (None, console).
Proof. unfold linkVisitor. by destruct (negb _). Qed.

(** When the visitor keeps the properties and the console, the walk just
    goes on into the children. *)
Lemma visit_link_unchanged sourcePath t p ch console :
  linkVisitor sourcePath (Element t p ch) console = Ok (p, console) ->
  Hast.visit_node (linkVisitor sourcePath) (Element t p ch) console =
  ('(ch', console') ← mapM (Hast.visit_node (linkVisitor sourcePath))
                        ch console;
   Ok (Element t p ch', console')).
Proof. intros E. by rewrite visit_node_element, E. Qed.

(** C5. An element whose [href] is the empty string, starts with [#], or
    starts, in any letter case, with [http://], [https://] or [about:],
    keeps its properties, nothing is logged, and the walk goes on into
    its children. *)
Theorem C5_nonlocal_links_untouched
        (sourcePath t : string) (pm : gmap string propval)
        (ch : list node) (console : list string) (s : string) :
  pm !! "href" = Some (PStr s) ->
  s = "" \/
  Js.startsWith s "#" = true \/
  Js.startsWith (Js.toLowerCase s) "https://" = true \/
  Js.startsWith (Js.toLowerCase s) "http://" = true \/
  Js.startsWith (Js.toLowerCase s) "about:" = true ->
  linkVisitor sourcePath (Element t (Some pm) ch) console =
    Ok (Some pm, console) /\
  Hast.visit_node (linkVisitor sourcePath) (Element t (Some pm) ch) console =
    ('(ch', console') ← mapM (Hast.visit_node (linkVisitor sourcePath))
                          ch console;
     Ok (Element t (Some pm) ch', console')).
Proof.
  intros Hh Hs.
  assert (linkVisitor sourcePath (Element t (Some pm) ch) console =
          Ok (Some pm, console)) as E
    by eauto using linkVisitor_nonlocal, isLocalHref_nonlocal.
  split; [done|]. by apply visit_link_unchanged.
Qed.

(** C10. An element without [properties], without an [href], or with an
    [href] made of white space only is left alone, like one whose [href]
    is the empty string; and whenever the trimmed [href] is not local the
    element is left alone, whatever [isLocalHref] says of the untrimmed
    text: [" #top.md"] is local as written, not local once trimmed, and
    is not touched. *)
Theorem C10_absent_or_blank_href
        (sourcePath t : string) (ch : list node) (console : list string) :
  linkVisitor sourcePath (Element t None ch) console = Ok (None, console) /\
  (forall pm,
      pm !! "href" = None ->
      linkVisitor sourcePath (Element t (Some pm) ch) console =
      Ok (Some pm, console)) /\
  (forall pm s,
      pm !! "href" = Some (PStr s) -> Js.all_ws s = true ->
      Js.trim s = "" /\
      linkVisitor sourcePath (Element t (Some pm) ch) console =
      Ok (Some pm, console)) /\
  (forall pm s,
      pm !! "href" = Some (PStr s) -> isLocalHref (Js.trim s) = false ->
      linkVisitor sourcePath (Element t (Some pm) ch) console =
      Ok (Some pm, console)) /\
  (isLocalHref " #top.md" = true /\
   linkVisitor sourcePath (anchor " #top.md" ch) console =
   Ok (Some {["href" := PStr " #top.md"]}, console)).
Proof.
  split; [apply linkVisitor_no_properties|].
  split; [intros; by apply linkVisitor_no_href|].
  split; [|split].
  - intros pm s Hh Hw. pose proof (trim_all_ws s Hw) as Ht.
    split; [done|]. apply (linkVisitor_nonlocal _ _ _ _ _ s); [done|].
    by rewrite Ht.
  - intros. by eapply linkVisitor_nonlocal.
  - split; [done|]. apply (linkVisitor_nonlocal _ _ _ _ _ " #top.md").
    + apply lookup_singleton_eq.
    + done.
Qed.

(** C4, as amended. An anchor whose trimmed [href] is local, ends in
    [.md] or [.mdx] in any letter case, and resolves (against the
    directory of the source path) to a path that does not exist keeps its
    properties; one warning is logged, which contains the trimmed [href]
    and the source path; the visitor does not throw and the walk goes on
    into the children. *)
Theorem C4_broken_link_warns
        (sourcePath t : string) (pm : gmap string propval)
        (ch : list node) (console : list string) (s : string) :
  Js.toLowerCase t = "a" ->
  pm !! "href" = Some (PStr s) ->
  isLocalHref (Js.trim s) = true ->
  Js.endsWith (Js.toLowerCase (Js.trim s)) ".mdx" ||
  Js.endsWith (Js.toLowerCase (Js.trim s)) ".md" = true ->
  existsSync (path_resolve (path_dirname sourcePath) (Js.trim s)) = false ->
  let warning := link_warning (Js.trim s) sourcePath in
  linkVisitor sourcePath (Element t (Some pm) ch) console =
    Ok (Some pm, console ++ [warning]) /\
  includes warning (Js.trim s) = true /\
  includes warning sourcePath = true /\
  Hast.visit_node (linkVisitor sourcePath) (Element t (Some pm) ch) console =
    ('(ch', console') ← mapM (Hast.visit_node (linkVisitor sourcePath))
                          ch (console ++ [warning]);
     Ok (Element t (Some pm) ch', console')).
Proof.
  intros Ht Hh Hl He Hx warning.
  assert (linkVisitor sourcePath (Element t (Some pm) ch) console =
          Ok (Some pm, console ++ [warning])) as E.
  { unfold linkVisitor. rewrite Ht. simpl.
    unfold href_operand. rewrite Hh. simpl.
    rewrite Hl. simpl. rewrite He, Hx. done. }
  split; [done|]. split; [|split].
  - unfold warning, link_warning.
    do 3 apply includes_later. apply includes_here.
  - unfold warning, link_warning.
    do 7 apply includes_later. apply includes_here.
  - by rewrite visit_node_element, E.
Qed.

End LinkFacts.

(** ** The pipeline *)

Section PipelineFacts.
Context {host : Host}.

Local Arguments Js.trim : simpl never.
Local Arguments Js.toLowerCase : simpl never.
Local Arguments Js.endsWith : simpl never.
Local Arguments isLocalHref : simpl never.
Local Arguments String.eqb : simpl never.

Lemma visit_length {S : Type}
      (f : node -> S -> result (option (gmap string propval) * S))
      (tree tree' : Root) (s s' : S) :
  Hast.visit f tree s = Ok (tree', s') ->
  length (children tree') = length (children tree).
Proof.
  unfold Hast.visit.
  destruct (mapM _ _ _) as [[ch s1]|] eqn:E; simpl; [|done].
  intros [= <- <-]. simpl. by eapply mapM_length.
Qed.

(** The link visitor throws only on an [href] it cannot trim. *)
Lemma linkVisitor_ok sourcePath n console :
  href_typed n = true ->
  exists p' console', linkVisitor sourcePath n console = Ok (p', console').
Proof.
  destruct n as [t p ch| | | |]; try (simpl; eauto; fail).
  unfold href_typed, linkVisitor.
  destruct (negb _); simpl; [eauto|].
  destruct (href_operand p) as [raw|] eqn:Eh; [|done]. intros _. simpl.
  destruct p as [pm|].
  - destruct (negb (isLocalHref _)); [eauto|].
    destruct (_ || _); [|eauto].
    destruct (negb (existsSync _)); [eauto|].
    destruct (Js.endsWith _ ".mdx"); simpl; [eauto|].
    destruct (Js.endsWith _ ".md"); simpl; eauto.
  - injection Eh as <-.
    assert (isLocalHref (Js.trim "") = false) as -> by reflexivity.
    simpl. eauto.
Qed.

Lemma link_walk_ok sourcePath (n : node) :
  Forall (fun e => href_typed e = true) (elements_of n) ->
  forall console,
  exists n' console',
    Hast.visit_node (linkVisitor sourcePath) n console = Ok (n', console').
Proof.
  induction n as [t p ch IH|v|v|name ch IH|i v] using node_ind';
    intros Hty console; try (simpl; eauto; fail).
  - simpl in Hty. apply Forall_cons in Hty as [Hn Hch].
    destruct (linkVisitor_ok sourcePath _ console Hn) as (p' & c1 & Ev).
    rewrite visit_node_element, Ev. simpl.
    assert (exists ch' c2,
               mapM (Hast.visit_node (linkVisitor sourcePath)) ch c1 =
               Ok (ch', c2)) as (ch' & c2 & ->); [|simpl; eauto].
    clear Ev Hn. revert c1.
    induction IH as [|c ch Hc _ IHch]; intros c1; simpl; [eauto|].
    simpl in Hch. apply Forall_app in Hch as [Hc1 Hch1].
    destruct (Hc Hc1 c1) as (c' & c2 & ->). simpl.
    destruct (IHch Hch1 c2) as (ch' & c3 & ->). simpl. eauto.
  - simpl in Hty.
    assert (exists ch' c2,
               mapM (Hast.visit_node (linkVisitor sourcePath)) ch console =
               Ok (ch', c2)) as (ch' & c2 & E).
    { revert console.
      induction IH as [|c ch Hc _ IHch]; intros c1; simpl; [eauto|].
      simpl in Hty. apply Forall_app in Hty as [Hc1 Hch1].
      destruct (Hc Hc1 c1) as (c' & c2 & ->). simpl.
      destruct (IHch Hch1 c2) as (ch' & c3 & ->). simpl. eauto. }
    simpl. rewrite E. simpl. eauto.
Qed.

Lemma updateContentLinks_ok (mdast : Root) sourcePath console :
  Forall (fun e => href_typed e = true) (doc_elements mdast) ->
  exists mdast' console',
    updateContentLinks mdast sourcePath console = Ok (mdast', console').
Proof.
  destruct mdast as [ch]. unfold doc_elements, updateContentLinks, Hast.visit.
  simpl. intros Hty.
  assert (exists ch' c2,
             mapM (Hast.visit_node (linkVisitor sourcePath)) ch console =
             Ok (ch', c2)) as (ch' & c2 & ->); [|simpl; eauto].
  revert console. induction ch as [|c ch IH]; intros c1; simpl; [eauto|].
  simpl in Hty. apply Forall_app in Hty as [Hc1 Hch1].
  destruct (link_walk_ok sourcePath c Hc1 c1) as (c' & c2 & ->). simpl.
  destruct (IH Hch1 c2) as (ch' & c3 & ->). simpl. eauto.
Qed.

(** The pipeline completes on every document whose anchors carry an
    [href] that is absent, falsy or a string. *)
Lemma rehypePage_completes (ctx : BuildContext) (ast : Root)
      (vfile_path : string) (st : gmap string nat * list string) :
  Forall (fun e => href_typed e = true) (doc_elements ast) ->
  exists mdast' st', rehypePage ctx ast vfile_path st = Ok (mdast', st').
Proof.
  intros Hty. unfold rehypePage.
  destruct (updateContentLinks_ok ast vfile_path (snd st) Hty)
    as (m1 & console & ->). simpl.
  destruct (exportContentHeadings_spec m1 (fst st))
    as (ids & slugs' & m2 & _ & -> & _ & _). simpl. eauto.
Qed.

(** C8. [createExport] puts its binding at the front of the children;
    a sequence of injections ends up at the front in reverse order; and
    whenever the pipeline completes, the tree starts with the bindings
    [index], [breadcrumbs], [attributes], [headings], in that order,
    followed by as many nodes as the document had. It completes on every
    document whose anchors carry an [href] that is absent, falsy or a
    string. *)
Theorem C8_exports_at_front :
  (forall (mdast : Root) (name : string) (val : jsval),
      children (createExport mdast name val) =
      MdxjsEsm name val :: children mdast) /\
  (forall (exports : list (string * jsval)) (mdast : Root),
      children (fold_left (fun m e => createExport m (fst e) (snd e))
                          exports mdast) =
      rev (map (fun e => MdxjsEsm (fst e) (snd e)) exports) ++
      children mdast) /\
  (forall (ctx : BuildContext) (ast : Root) (vfile_path : string)
          (st : gmap string nat * list string)
          (mdast' : Root) (st' : gmap string nat * list string),
      rehypePage ctx ast vfile_path st = Ok (mdast', st') ->
      exists index breadcrumbs attributes headings rest,
        children mdast' =
        MdxjsEsm "index" index :: MdxjsEsm "breadcrumbs" breadcrumbs ::
        MdxjsEsm "attributes" attributes :: MdxjsEsm "headings" headings ::
        rest /\
        length rest = length (children ast)) /\
  (forall (ctx : BuildContext) (ast : Root) (vfile_path : string)
          (st : gmap string nat * list string),
      Forall (fun e => href_typed e = true) (doc_elements ast) ->
      exists mdast' st', rehypePage ctx ast vfile_path st = Ok (mdast', st')).
Proof.
  split; [done|]. split; [|split; [|apply rehypePage_completes]].
  - induction exports as [|e exports IH]; intros mdast; simpl; [done|].
    rewrite IH. simpl. by rewrite <- app_assoc.
  - intros ctx ast vfile_path st mdast' st'. unfold rehypePage.
    destruct (updateContentLinks _ _ _) as [[m1 console]|] eqn:E1;
      simpl; [|done].
    destruct (exportContentHeadings_spec m1 (fst st))
      as (ids & slugs' & m2 & _ & E2 & _ & L).
    rewrite E2. simpl. intros [= <- <-]. simpl.
    eexists _, _, _, _, _. split; [reflexivity|].
    apply visit_length in E1. by rewrite L.
Qed.

End PipelineFacts.

(** ** Stripping the extension *)

Lemma length_lower (s : string) :
  String.length (Js.toLowerCase s) = String.length s.
Proof. induction s as [|c s IH]; simpl; congruence. Qed.

Lemma substring_lower (s : string) :
  forall n m,
    String.substring n m (Js.toLowerCase s) =
    Js.toLowerCase (String.substring n m s).
Proof.
  induction s as [|c s IH]; intros [|n] [|m]; simpl; try done.
  - by rewrite IH.
Qed.

Lemma substring_split (s : string) :
  forall n, n <= String.length s ->
            String.substring 0 n s +:+
            String.substring n (String.length s - n) s = s.
Proof.
  induction s as [|c s IH]; intros [|n] Hn; simpl in *; try lia; try done.
  - rewrite app_nil_l. f_equal.
    specialize (IH 0 ltac:(lia)). simpl in IH.
    rewrite Nat.sub_0_r in IH.
    destruct s; [done|]. simpl in IH. by rewrite app_nil_l in IH.
  - rewrite app_cons. f_equal. apply IH. lia.
Qed.

(** A string that ends, up to case, with [ext] is a stem followed by an
    extension that lower-cases to [ext]; the stem is what
    [substring(0, length - ext.length)] returns. *)
Lemma endsWith_lower_split (s ext : string) :
  Js.endsWith (Js.toLowerCase s) ext = true ->
  exists e, s = Js.substring0 (String.length s - String.length ext) s +:+ e /\
            Js.toLowerCase e = ext.
Proof.
  unfold Js.endsWith, Js.substring0. rewrite length_lower.
  intros [Hl He]%andb_true_iff.
  apply Nat.leb_le in Hl. apply String.eqb_eq in He.
  rewrite substring_lower in He.
  exists (String.substring (String.length s - String.length ext)
                           (String.length ext) s).
  split; [|done].
  rewrite <- (substring_split s (String.length s - String.length ext)) at 1
    by lia.
  do 2 f_equal. lia.
Qed.

Section StripFacts.
Context {host : Host}.

Local Arguments Js.trim : simpl never.
Local Arguments Js.toLowerCase : simpl never.
Local Arguments Js.endsWith : simpl never.
Local Arguments Js.substring0 : simpl never.
Local Arguments isLocalHref : simpl never.
Local Arguments String.eqb : simpl never.

(** X14. An anchor whose [href] carries no surrounding white space, is
    local, ends in [.mdx] or [.md] in any letter case and resolves to an
    existing path gets that [href] with exactly the extension removed, and
    nothing is logged. *)
Lemma linkVisitor_strips_extension
      (sourcePath t : string) (pm : gmap string propval)
      (ch : list node) (console : list string) (s : string) :
  Js.toLowerCase t = "a" ->
  pm !! "href" = Some (PStr s) ->
  Js.trim s = s ->
  isLocalHref s = true ->
  Js.endsWith (Js.toLowerCase s) ".mdx" ||
  Js.endsWith (Js.toLowerCase s) ".md" = true ->
  existsSync (path_resolve (path_dirname sourcePath) s) = true ->
  exists stem ext,
    s = stem +:+ ext /\
    (Js.toLowerCase ext = ".mdx" \/ Js.toLowerCase ext = ".md") /\
    linkVisitor sourcePath (Element t (Some pm) ch) console =
    Ok (Some (<["href" := PStr stem]> pm), console).
Proof.
  intros Ht Hh Htrim Hl He Hx.
  unfold linkVisitor. rewrite Ht. simpl.
  unfold href_operand. rewrite Hh. simpl.
  rewrite Htrim, Hl. simpl. rewrite He, Hx. simpl.
  destruct (Js.endsWith (Js.toLowerCase s) ".mdx") eqn:Ex.
  - destruct (endsWith_lower_split _ _ Ex) as (e & Hs & Hlow).
    eexists _, e. split; [exact Hs|]. split; [by left|]. done.
  - simpl in He. rewrite He.
    destruct (endsWith_lower_split _ _ He) as (e & Hs & Hlow).
    eexists _, e. split; [exact Hs|]. split; [by right|]. done.
Qed.

End StripFacts.

(** ** The claims at concrete inputs *)

(** C3. What the link pass does to [href=" ./foo.mdx"] (one leading
    space) in [/docs/bar.mdx] when [/docs/foo.mdx] exists: the new [href]
    is [" ./fo"], the first [length - 4] characters of the attribute where
    [length] is that of the trimmed text; without the space it is
    [./foo]. *)
Theorem C3_padded_href_is_cut_short :
  let host := Posix.host ["/docs/foo.mdx"] in
  path_resolve (path_dirname "/docs/bar.mdx") "./foo.mdx" = "/docs/foo.mdx" /\
  linkVisitor "/docs/bar.mdx" (anchor "./foo.mdx" []) [] =
    Ok (Some {["href" := PStr "./foo"]}, []) /\
  linkVisitor "/docs/bar.mdx" (anchor " ./foo.mdx" []) [] =
    Ok (Some {["href" := PStr " ./fo"]}, []).
Proof. vm_compute. done. Qed.


(** C4 fails as stated: the warning for [href=" ./missing.md"] quotes the
    trimmed text and does not contain the attribute as written. *)
Lemma C4_warning_quotes_trimmed_text :
  let host := Posix.host [] in
  exists warning,
    linkVisitor "/docs/bar.mdx" (anchor " ./missing.md" []) [] =
      Ok (Some {["href" := PStr " ./missing.md"]}, [warning]) /\
    includes warning "./missing.md" = true /\
    includes warning " ./missing.md" = false.
Proof.
  intros host. eexists. split; [vm_compute; reflexivity|].
  vm_compute. done.
Qed.

(** C8 fails as stated: on a document with an anchor whose [href] is
    [true] the link pass throws, so the pipeline ends before any binding
    is put into the tree. *)
Lemma C8_pipeline_throws_before_exports :
  let host := Posix.host [] in
  let ctx := mkContext host tt [] [] in
  let ast := mkRoot [heading "h1" "Hello";
                     Element "a" (Some {["href" := PBool true]}) []] in
  rehypePage ctx ast "/docs/bar.mdx" (∅, []) =
    Throw (TypeError "trim is not a function") /\
  updateContentLinks ast "/docs/bar.mdx" [] =
    Throw (TypeError "trim is not a function").
Proof. vm_compute. done. Qed.

(** C7 fails as stated: for a page ten segments deep and a table with
    only [/a], nine truncations reach [/a], yet [getMenuPathname] returns
    no section. *)
Lemma C7_ninth_truncation_not_looked_up :
  let host := Posix.host [] in
  let ctx := mkContext host tt [] [mkMenu "/a" None] in
  Nat.iter 9 truncate "/a/b/c/d/e/f/g/h/i/j" = "/a" /\
  nearest_section 9 ctx "/a/b/c/d/e/f/g/h/i/j" = Some "/a" /\
  getMenuPathname ctx "/a/b/c/d/e/f/g/h/i/j" = None.
Proof. vm_compute. done. Qed.

(** ** The theorems at work on concrete documents *)


(** C2 on [<h2 id="intro">Intro</h2>]. *)
Lemma C2_witness :
  let host := Posix.host [] in
  let pm : gmap string propval := {["id" := PStr "intro"]} in
  pm !! "id" = Some (PStr "intro") /\
  headingVisitor (Element "h2" (Some pm) [Text "Intro"]) (∅, []) =
    Ok (Some pm, (∅, [])) /\
  sluggable (Element "h2" (Some pm) [Text "Intro"]) = false.
Proof.
  intros host pm.
  destruct (C2_identified_headings_skipped
              "h2" pm [Text "Intro"] (PStr "intro") (∅, []))
    as (Hv & Hs & _); [reflexivity|discriminate..|].
  split; [reflexivity|]. split; [exact Hv|exact Hs].
Defined.

(** C4 on [href="./missing.md"] in [/docs/bar.mdx], with no such file. *)
Lemma C4_witness :
  let host := Posix.host [] in
  let pm : gmap string propval := {["href" := PStr "./missing.md"]} in
  existsSync (path_resolve (path_dirname "/docs/bar.mdx") "./missing.md")
    = false /\
  linkVisitor "/docs/bar.mdx" (Element "a" (Some pm) []) [] =
    Ok (Some pm, [link_warning "./missing.md" "/docs/bar.mdx"]) /\
  includes (link_warning "./missing.md" "/docs/bar.mdx") "./missing.md" = true.
Proof.
  intros host pm.
  destruct (C4_broken_link_warns
              "/docs/bar.mdx" "a" pm [] [] "./missing.md")
    as (Hv & Hi & _); [reflexivity..|].
  split; [reflexivity|]. split; [exact Hv|exact Hi].
Defined.

(** C5 on [href="HTTPS://example.com/guide.md"]. *)
Lemma C5_witness :
  let host := Posix.host ["/docs/HTTPS:/example.com/guide.md"] in
  let pm : gmap string propval :=
    {["href" := PStr "HTTPS://example.com/guide.md"]} in
  Js.startsWith (Js.toLowerCase "HTTPS://example.com/guide.md") "https://"
    = true /\
  linkVisitor "/docs/bar.mdx" (Element "a" (Some pm) []) [] = Ok (Some pm, []).
Proof.
  intros host pm.
  destruct (C5_nonlocal_links_untouched
              "/docs/bar.mdx" "a" pm [] [] "HTTPS://example.com/guide.md")
    as (Hv & _); [reflexivity|right; right; left; reflexivity|].
  split; [reflexivity|exact Hv].
Defined.

(** C8 on a page with a heading and a link. *)
Lemma C8_witness :
  let host := Posix.host ["/docs/foo.mdx"] in
  let ctx := mkContext host tt [mkRoute "/docs/bar.mdx" None] [] in
  let ast := mkRoot [heading "h1" "Hello World";
                     anchor "./foo.mdx" [Text "foo"]] in
  exists mdast' st',
    rehypePage ctx ast "/docs/bar.mdx" (∅, []) = Ok (mdast', st') /\
    exists index breadcrumbs attributes headings rest,
      children mdast' =
      MdxjsEsm "index" index :: MdxjsEsm "breadcrumbs" breadcrumbs ::
      MdxjsEsm "attributes" attributes :: MdxjsEsm "headings" headings ::
      rest /\
      length rest = 2.
Proof.
  intros host ctx ast.
  destruct (rehypePage ctx ast "/docs/bar.mdx" (∅, [])) as [[m s]|e] eqn:E.
  - exists m, s. split; [reflexivity|].
    exact (proj1 (proj2 (proj2 C8_exports_at_front)) ctx ast _ _ m s E).
  - vm_compute in E. discriminate.
Defined.

(** C10 on [href="   "]. *)
Lemma C10_witness :
  let host := Posix.host [] in
  let pm : gmap string propval := {["href" := PStr "   "]} in
  Js.all_ws "   " = true /\
  linkVisitor "/docs/bar.mdx" (Element "a" (Some pm) []) [] = Ok (Some pm, []).
Proof.
  intros host pm.
  destruct (C10_absent_or_blank_href "/docs/bar.mdx" "a" [] [])
    as (_ & _ & Hblank & _).
  destruct (Hblank pm "   ") as (_ & Hv); [reflexivity..|].
  split; [reflexivity|exact Hv].
Defined.

(* ===================================================================== *)
(** * Part III: properties of the passes as a whole *)
(* ===================================================================== *)

(** ** Any walk keeps tags and texts *)

Section WalkFacts.
Context {S : Type}.
Variable visitor : node -> S -> result (option (gmap string propval) * S).

Lemma walk_list_frame (l : list node) :
  Forall (fun n => forall s n' s',
              Hast.visit_node visitor n s = Ok (n', s') ->
              Hast.one n' = Hast.one n /\
              Forall2 (touched visitor) (elements_of n) (elements_of n')) l ->
  forall s l' s',
    mapM (Hast.visit_node visitor) l s = Ok (l', s') ->
    map Hast.one l' = map Hast.one l /\
    Forall2 (touched visitor) (flat_map elements_of l)
            (flat_map elements_of l').
Proof.
  induction 1 as [|n l Hn _ IH]; intros s l' s'; simpl.
  - intros [= <- <-]. split; [done|constructor].
  - destruct (Hast.visit_node visitor n s) as [[n1 s1]|] eqn:E1;
      simpl; [|done].
    destruct (mapM (Hast.visit_node visitor) l s1) as [[l1 s2]|] eqn:E2;
      simpl; [|done].
    intros [= <- <-]. apply Hn in E1 as [H1 F1]. apply IH in E2 as [H2 F2].
    simpl. split; [by rewrite H1, H2|]. by apply Forall2_app.
Qed.

(** The walk returns a tree with the same texts whose elements are, in
    document order, the elements of the input as the visitor left them. *)
Lemma walk_frame (n : node) :
  forall s n' s',
    Hast.visit_node visitor n s = Ok (n', s') ->
    Hast.one n' = Hast.one n /\
    Forall2 (touched visitor) (elements_of n) (elements_of n').
Proof.
  induction n as [t p ch IH|v|v|name ch IH|i v] using node_ind';
    intros s n' s'.
  - rewrite visit_node_element.
    destruct (visitor (Element t p ch) s) as [[p' s1]|] eqn:Ev;
      simpl; [|done].
    destruct (mapM (Hast.visit_node visitor) ch s1) as [[ch' s2]|] eqn:Em;
      simpl; [|done].
    intros [= <- <-].
    destruct (walk_list_frame ch IH _ _ _ Em) as [H1 F1].
    assert (Hast.one (Element t p' ch') = Hast.one (Element t p ch)) as Ho
      by (simpl; by rewrite H1).
    split; [done|]. simpl. constructor; [|done].
    exists t, p, p', ch, ch', s, s1. repeat split; try done.
  - intros [= <- <-]. split; [done|constructor].
  - intros [= <- <-]. split; [done|constructor].
  - simpl.
    destruct (mapM (Hast.visit_node visitor) ch s) as [[ch' s2]|] eqn:Em;
      simpl; [|done].
    intros [= <- <-].
    destruct (walk_list_frame ch IH _ _ _ Em) as [H1 F1].
    split; [simpl; by rewrite H1|done].
  - intros [= <- <-]. split; [done|constructor].
Qed.

Lemma visit_frame (tree tree' : Root) (s s' : S) :
  Hast.visit visitor tree s = Ok (tree', s') ->
  Forall2 (touched visitor) (doc_elements tree) (doc_elements tree').
Proof.
  unfold Hast.visit, doc_elements.
  destruct (mapM _ _ _) as [[ch s1]|] eqn:E; simpl; [|done].
  intros [= <- <-]. simpl.
  eapply walk_list_frame; [|exact E].
  apply Forall_forall. intros n _. apply walk_frame.
Qed.

(** A relation between states that every call of the visitor respects is
    respected by the walk. *)
Section StateInvariant.
Variable R : S -> S -> Prop.
Hypothesis R_refl : forall s, R s s.
Hypothesis R_trans : forall s1 s2 s3, R s1 s2 -> R s2 s3 -> R s1 s3.
Hypothesis R_visitor :
  forall e s p' s', visitor e s = Ok (p', s') -> R s s'.

Lemma walk_list_state (l : list node) :
  Forall (fun n => forall s n' s',
              Hast.visit_node visitor n s = Ok (n', s') -> R s s') l ->
  forall s l' s',
    mapM (Hast.visit_node visitor) l s = Ok (l', s') -> R s s'.
Proof.
  induction 1 as [|n l Hn _ IH]; intros s l' s'; simpl.
  - intros [= <- <-]. apply R_refl.
  - destruct (Hast.visit_node visitor n s) as [[n1 s1]|] eqn:E1;
      simpl; [|done].
    destruct (mapM (Hast.visit_node visitor) l s1) as [[l1 s2]|] eqn:E2;
      simpl; [|done].
    intros [= <- <-]. eauto.
Qed.

Lemma walk_state (n : node) :
  forall s n' s', Hast.visit_node visitor n s = Ok (n', s') -> R s s'.
Proof.
  induction n as [t p ch IH|v|v|name ch IH|i v] using node_ind';
    intros s n' s'.
  - rewrite visit_node_element.
    destruct (visitor (Element t p ch) s) as [[p' s1]|] eqn:Ev;
      simpl; [|done].
    destruct (mapM (Hast.visit_node visitor) ch s1) as [[ch' s2]|] eqn:Em;
      simpl; [|done].
    intros [= <- <-]. apply (R_trans s s1 s2); [by eapply R_visitor|].
    by eapply walk_list_state.
  - intros [= <- <-]. apply R_refl.
  - intros [= <- <-]. apply R_refl.
  - simpl.
    destruct (mapM (Hast.visit_node visitor) ch s) as [[ch' s2]|] eqn:Em;
      simpl; [|done].
    intros [= <- <-]. eapply walk_list_state; eauto.
  - intros [= <- <-]. apply R_refl.
Qed.

Lemma visit_state (tree tree' : Root) (s s' : S) :
  Hast.visit visitor tree s = Ok (tree', s') -> R s s'.
Proof.
  unfold Hast.visit.
  destruct (mapM _ _ _) as [[ch s1]|] eqn:E; simpl; [|done].
  intros [= <- <-].
  eapply walk_list_state; [|exact E].
  apply Forall_forall. intros n _. apply walk_state.
Qed.

End StateInvariant.

(** An exception of the walk is an exception of the visitor. *)
Section Errors.
Variable P : error -> Prop.
Hypothesis P_visitor : forall e s err, visitor e s = Throw err -> P err.

Lemma walk_list_error (l : list node) :
  Forall (fun n => forall s err,
              Hast.visit_node visitor n s = Throw err -> P err) l ->
  forall s err, mapM (Hast.visit_node visitor) l s = Throw err -> P err.
Proof.
  induction 1 as [|n l Hn _ IH]; intros s err; simpl; [done|].
  destruct (Hast.visit_node visitor n s) as [[n1 s1]|e1] eqn:E1; simpl.
  - destruct (mapM (Hast.visit_node visitor) l s1) as [[l1 s2]|e2] eqn:E2;
      simpl; [done|]. intros [= <-]. eauto.
  - intros [= <-]. eauto.
Qed.

Lemma walk_error (n : node) :
  forall s err, Hast.visit_node visitor n s = Throw err -> P err.
Proof.
  induction n as [t p ch IH|v|v|name ch IH|i v] using node_ind';
    intros s err; try done.
  - rewrite visit_node_element.
    destruct (visitor (Element t p ch) s) as [[p' s1]|e1] eqn:Ev; simpl.
    + destruct (mapM (Hast.visit_node visitor) ch s1) as [[ch' s2]|e2] eqn:Em;
        simpl; [done|]. intros [= <-]. eapply walk_list_error; eauto.
    + intros [= <-]. eauto.
  - simpl.
    destruct (mapM (Hast.visit_node visitor) ch s) as [[ch' s2]|e2] eqn:Em;
      simpl; [done|]. intros [= <-]. eapply walk_list_error; eauto.
Qed.

Lemma visit_error (tree : Root) (s : S) (err : error) :
  Hast.visit visitor tree s = Throw err -> P err.
Proof.
  unfold Hast.visit.
  destruct (mapM _ _ _) as [[ch s1]|e1] eqn:E; simpl; [done|].
  intros [= <-]. eapply walk_list_error; [|exact E].
  apply Forall_forall. intros n _. apply walk_error.
Qed.

End Errors.

End WalkFacts.

(** ** The link pass as a whole *)

Section LinkPass.
Context {host : Host}.

Local Arguments Js.trim : simpl never.
Local Arguments Js.toLowerCase : simpl never.
Local Arguments Js.endsWith : simpl never.
Local Arguments Js.substring0 : simpl never.
Local Arguments isLocalHref : simpl never.
Local Arguments String.eqb : simpl never.
Local Arguments link_warning : simpl never.

Lemma set_href_frame p v p' :
  set_href p v = Ok p' -> delete "href" <$> p' = delete "href" <$> p.
Proof.
  destruct p as [pm|]; simpl; [|done]. intros [= <-]. simpl.
  by rewrite delete_insert_eq.
Qed.

(** One call of the link visitor: every property but [href] is kept, and
    the console gets at most one message, a link warning. *)
Lemma linkVisitor_frame sourcePath t p ch console p' console' :
  linkVisitor sourcePath (Element t p ch) console = Ok (p', console') ->
  delete "href" <$> p' = delete "href" <$> p /\
  exists w, console' = console ++ w /\
            Forall (is_link_warning sourcePath) w.
Proof.
  assert (forall q, Ok (p, console) = Ok (q, console') ->
                    delete "href" <$> q = delete "href" <$> p /\
                    exists w, console' = console ++ w /\
                              Forall (is_link_warning sourcePath) w) as Hsame.
  { intros q [= <- <-]. split; [done|]. exists []. by rewrite app_nil_r. }
  unfold linkVisitor.
  destruct (negb _); [apply Hsame|].
  destruct (href_operand p) as [raw|]; simpl; [|done].
  destruct (negb (isLocalHref _)); [apply Hsame|].
  destruct (_ || _); [|apply Hsame].
  destruct (negb (existsSync _)).
  { intros [= <- <-]. split; [done|]. eexists. split; [done|].
    constructor; [|constructor]. by eexists. }
  destruct (Js.endsWith _ ".mdx").
  { destruct (set_href p _) as [q|] eqn:Eq; simpl; [|done].
    intros [= <- <-]. split; [by eapply set_href_frame|].
    exists []. by rewrite app_nil_r. }
  destruct (Js.endsWith _ ".md"); [|apply Hsame].
  destruct (set_href p _) as [q|] eqn:Eq; simpl; [|done].
  intros [= <- <-]. split; [by eapply set_href_frame|].
  exists []. by rewrite app_nil_r.
Qed.

(** The link visitor completes exactly on the elements whose [href] it
    can trim, and its only exception is the failed call of [trim]. *)
Lemma linkVisitor_throws sourcePath n console err :
  linkVisitor sourcePath n console = Throw err ->
  href_typed n = false /\ err = TypeError "trim is not a function".
Proof.
  destruct n as [t p ch| | | |]; try done.
  unfold linkVisitor, href_typed.
  destruct (negb _); simpl; [done|].
  destruct (href_operand p) as [raw|e] eqn:Eh; simpl.
  - destruct p as [pm|].
    + destruct (negb (isLocalHref _)); [done|].
      destruct (_ || _); [|done].
      destruct (negb (existsSync _)); [done|].
      destruct (Js.endsWith _ ".mdx"); simpl; [done|].
      by destruct (Js.endsWith _ ".md").
    + injection Eh as <-.
      by assert (isLocalHref (Js.trim "") = false) as -> by reflexivity.
  - intros [= <-]. split; [done|].
    unfold href_operand in Eh. destruct p as [pm|]; [|done].
    destruct (pm !! "href") as [[| |[]|z|]|]; try done.
    + by injection Eh.
    + destruct (Z.eqb z 0); [done|]. by injection Eh.
Qed.

Lemma linkVisitor_ok_typed sourcePath n console p' console' :
  linkVisitor sourcePath n console = Ok (p', console') ->
  href_typed n = true.
Proof.
  destruct n as [t p ch| | | |]; try done.
  unfold linkVisitor, href_typed.
  destruct (negb _); simpl; [done|].
  by destruct (href_operand p).
Qed.

(** X1. The link pass changes nothing but [href] properties: the
    elements of the result are, in document order, those of the input with
    the same tag, the same text and the same properties other than [href],
    and the document keeps its number of top-level nodes. *)
Theorem X1_link_pass_touches_only_href
        (mdast mdast' : Root) (sourcePath : string)
        (console console' : list string) :
  updateContentLinks mdast sourcePath console = Ok (mdast', console') ->
  Forall2 (same_but "href") (doc_elements mdast) (doc_elements mdast') /\
  length (children mdast') = length (children mdast).
Proof.
  intros E. split; [|by eapply visit_length].
  apply visit_frame in E. eapply Forall2_impl; [exact E|].
  intros e e' (t & p & p' & ch & ch' & s0 & s1 & -> & -> & Hv & Ht).
  apply linkVisitor_frame in Hv as [Hp _].
  by exists t, p, p', ch, ch'.
Qed.

(** X2. The link pass only ever appends to the console, and what it
    appends are link warnings for the document's source path. *)
Theorem X2_link_pass_appends_warnings
        (mdast mdast' : Root) (sourcePath : string)
        (console console' : list string) :
  updateContentLinks mdast sourcePath console = Ok (mdast', console') ->
  exists w, console' = console ++ w /\
            Forall (is_link_warning sourcePath) w.
Proof.
  apply (visit_state (linkVisitor sourcePath)
           (fun c c' => exists w, c' = c ++ w /\
                                  Forall (is_link_warning sourcePath) w)).
  - intros c. exists []. by rewrite app_nil_r.
  - intros c1 c2 c3 (w1 & -> & F1) (w2 & -> & F2).
    exists (w1 ++ w2). rewrite app_assoc. split; [done|].
    by apply Forall_app.
  - intros [t p ch| | | |] c p' c'; try (intros [= <- <-]; exists [];
      by rewrite app_nil_r).
    intros Hv. by apply linkVisitor_frame in Hv as [_ ?].
Qed.

(** X3. The link pass completes exactly on the documents in which every
    anchor's [href] is absent, falsy or a string; otherwise it throws the
    [TypeError] of calling [trim] on a value that has none, and nothing
    else. *)
Theorem X3_link_pass_throws_on_untrimmable_href
        (mdast : Root) (sourcePath : string) (console : list string) :
  ((exists r, updateContentLinks mdast sourcePath console = Ok r) <->
   Forall (fun e => href_typed e = true) (doc_elements mdast)) /\
  (forall err,
      updateContentLinks mdast sourcePath console = Throw err ->
      err = TypeError "trim is not a function").
Proof.
  split; [split|].
  - intros [[m' c'] E]. apply visit_frame in E.
    clear -E. induction E as [|e e' l l' He _ IH]; constructor; [|done].
    destruct He as (t & p & p' & ch & ch' & s0 & s1 & -> & _ & Hv & _).
    by eapply linkVisitor_ok_typed.
  - intros Hty.
    destruct (updateContentLinks_ok mdast sourcePath console Hty)
      as (m' & c' & E). eauto.
  - intros err E.
    apply (visit_error (linkVisitor sourcePath)
             (fun e => e = TypeError "trim is not a function")) in E; [done|].
    intros e s err' Hv. by apply linkVisitor_throws in Hv as [_ ?].
Qed.

End LinkPass.

(** ** The heading pass as a whole *)

Section HeadingWhole.
Context {host : Host}.

Local Arguments Hast.toString : simpl never.
Local Arguments Hast.headingRank : simpl never.

Lemma headingVisitor_frame t p ch st p' st' :
  headingVisitor (Element t p ch) st = Ok (p', st') ->
  delete "id" <$> p' = delete "id" <$> p.
Proof.
  unfold headingVisitor.
  destruct (Hast.headingRank _); [|by intros [= <- <-]].
  destruct p as [pm|]; [|by intros [= <- <-]].
  destruct (hasProperty _ _); [by intros [= <- <-]|].
  destruct (Slugger.slug _ _) as [[id occ]|]; [|done].
  intros [= <- <-]. simpl. by rewrite delete_insert_eq.
Qed.

Lemma headingRank_range (n : node) (level : nat) :
  Hast.headingRank n = Some level -> 1 <= level <= 6.
Proof.
  unfold Hast.headingRank. intros H.
  repeat case_match; try done. simplify_eq.
  match goal with
  | E : (_ && _) = true |- _ =>
      apply andb_true_iff in E as [E1 E2];
      apply Nat.ltb_lt in E1; apply Nat.ltb_lt in E2
  end.
  lia.
Qed.

Lemma sluggable_rank (n : node) :
  sluggable n = true -> 1 <= rank_of n <= 6.
Proof.
  unfold sluggable, rank_of.
  destruct (Hast.headingRank n) as [level|] eqn:E; [|done].
  intros _. simpl. by eapply headingRank_range.
Qed.

(** Whether an element is sluggable, its rank and its text are the same
    after a change of a property other than [id]. *)
Lemma same_but_heading (key : string) (e e' : node) :
  key <> "id" -> same_but key e e' ->
  sluggable e' = sluggable e /\ rank_of e' = rank_of e /\
  Hast.toString e' = Hast.toString e.
Proof.
  intros Hk (t & p & p' & ch & ch' & -> & -> & Hp & Ht).
  split; [|split; [done|done]].
  unfold sluggable.
  change (Hast.headingRank (Element t p' ch'))
    with (Hast.headingRank (Element t p ch)).
  destruct (Hast.headingRank _); [|done].
  destruct p as [pm|], p' as [pm'|]; try done.
  unfold hasProperty. simpl. injection Hp as Hp.
  apply (f_equal (fun m => m !! "id")) in Hp.
  rewrite !lookup_delete_ne in Hp by done. by rewrite Hp.
Qed.

Lemma same_but_outline (key : string) (els els' : list node) :
  key <> "id" -> Forall2 (same_but key) els els' ->
  heading_texts els' = heading_texts els /\
  forall ids, entries (sluggables els') ids = entries (sluggables els) ids.
Proof.
  intros Hk. unfold heading_texts, sluggables.
  induction 1 as [|e e' l l' He _ [IH1 IH2]]; [done|].
  destruct (same_but_heading key e e' Hk He) as (Hs & Hr & Ht).
  simpl. rewrite Hs. destruct (sluggable e); [|done].
  simpl. rewrite Ht, IH1. split; [done|].
  intros [|id ids]; [done|]. by rewrite Hr, IH2.
Qed.

Lemma filter_none {A} (f : A -> bool) (l : list A) :
  Forall (fun x => f x = false) l -> List.filter f l = [].
Proof.
  induction 1 as [|x l Hx _ IH]; [done|]. simpl. by rewrite Hx.
Qed.

Lemma assign_unsluggable (els : list node) :
  forall ids l',
    length ids = length (sluggables els) ->
    map shallow l' = assign els ids ->
    Forall (fun n => sluggable n = false) l'.
Proof.
  unfold sluggables.
  induction els as [|n els IH]; intros ids [|n' l']; simpl; try done.
  destruct (sluggable n) eqn:Es.
  - destruct (sluggable_shape _ Es) as (t & pm & ch & ->).
    destruct ids as [|id ids]; [done|]. simpl. intros [= Hl] [= Hn Hr].
    constructor; [|by eapply IH].
    destruct n' as [t' p' ch'| | | |]; try done.
    injection Hn as -> ->. unfold sluggable.
    destruct (Hast.headingRank _); [|done].
    unfold hasProperty. simpl. by rewrite lookup_insert_eq.
  - intros Hl [= Hn Hr]. constructor; [|by eapply IH].
    rewrite <- Es. destruct n as [t p ch| | | |], n' as [t' p' ch'| | | |];
      try done.
    injection Hn as -> ->. done.
Qed.

Lemma assign_nothing (els : list node) :
  Forall (fun n => sluggable n = false) els ->
  forall ids, assign els ids = map shallow els.
Proof.
  induction 1 as [|n els Hn _ IH]; intros ids; [done|].
  simpl. rewrite Hn. by rewrite IH.
Qed.

(** X4. The heading pass changes nothing but [id] properties: the
    elements of the result are, in document order, those of the input with
    the same tag, the same text and the same properties other than [id];
    the [headings] binding, holding the outline, is put in front of the
    document's nodes. *)
Theorem X4_heading_pass_touches_only_id
        (mdast mdast' : Root) (slugs slugs' : gmap string nat)
        (headings : list PageHeading) :
  exportContentHeadings mdast slugs = Ok (mdast', slugs', headings) ->
  Forall2 (same_but "id") (doc_elements mdast) (doc_elements mdast') /\
  exists rest,
    children mdast' =
      MdxjsEsm "headings" (VArr (map heading_val headings)) :: rest /\
    length rest = length (children mdast).
Proof.
  unfold exportContentHeadings.
  destruct (Hast.visit headingVisitor mdast _) as [[m1 [s1 h1]]|] eqn:E;
    simpl; [|done].
  intros [= <- <- <-]. split.
  - apply visit_frame in E.
    change (doc_elements (createExport m1 "headings"
                            (VArr (map heading_val h1))))
      with (doc_elements m1).
    eapply Forall2_impl; [exact E|].
    intros e e' (t & p & p' & ch & ch' & s0 & s1' & -> & -> & Hv & Ht).
    apply headingVisitor_frame in Hv. by exists t, p, p', ch, ch'.
  - eexists. split; [done|]. by eapply visit_length.
Qed.

Lemma walk_list_unsluggable (l : list node) :
  Forall (fun n =>
            Forall (fun e => sluggable e = false) (elements_of n) ->
            forall st, Hast.visit_node headingVisitor n st = Ok (n, st)) l ->
  Forall (fun e => sluggable e = false) (flat_map elements_of l) ->
  forall st, mapM (Hast.visit_node headingVisitor) l st = Ok (l, st).
Proof.
  induction 1 as [|n l Hn _ IH]; intros Hno st; [done|].
  simpl in Hno. apply Forall_app in Hno as [H1 H2].
  simpl. rewrite (Hn H1 st). simpl. by rewrite (IH H2 st).
Qed.

(** Where nothing is sluggable the walk of the heading pass returns the
    tree and the state it was given. *)
Lemma walk_unsluggable (n : node) :
  Forall (fun e => sluggable e = false) (elements_of n) ->
  forall st, Hast.visit_node headingVisitor n st = Ok (n, st).
Proof.
  induction n as [t p ch IH|v|v|name ch IH|i v] using node_ind';
    intros Hno st; try done.
  - simpl in Hno. apply Forall_cons in Hno as [Hs Hch].
    rewrite visit_node_element, (headingVisitor_skip t p ch st Hs). simpl.
    by rewrite (walk_list_unsluggable ch IH Hch st).
  - simpl in Hno. simpl.
    by rewrite (walk_list_unsluggable ch IH Hno st).
Qed.

(** X5. After the heading pass no element is sluggable any more: a
    second pass over its result returns the tree as it is, with a second
    [headings] binding in front that holds an empty outline, and an empty
    registry. *)
Theorem X5_second_heading_pass_is_empty
        (mdast mdast1 : Root) (slugs slugs1 : gmap string nat)
        (headings : list PageHeading) :
  exportContentHeadings mdast slugs = Ok (mdast1, slugs1, headings) ->
  Forall (fun e => sluggable e = false) (doc_elements mdast1) /\
  exportContentHeadings mdast1 slugs1 =
    Ok (createExport mdast1 "headings" (VArr []), ∅, []).
Proof.
  intros E.
  destruct (exportContentHeadings_spec mdast slugs)
    as (ids & s1 & m1 & Eids & E1 & A1 & _).
  rewrite E1 in E. injection E as <- <- <-.
  assert (Forall (fun n => sluggable n = false) (doc_elements m1)) as Hno.
  { eapply assign_unsluggable; [|exact A1].
    by eapply slug_all_ids_length. }
  split; [exact Hno|].
  unfold exportContentHeadings, Hast.visit.
  rewrite walk_list_unsluggable; [by destruct m1| |exact Hno].
  apply Forall_forall. intros n _. apply walk_unsluggable.
Qed.

End HeadingWhole.

(** ** The outline, the registry and the pipeline *)

Section OutlineFacts.
Context {host : Host}.

Local Arguments Hast.toString : simpl never.

(** X6. When the heading pass is done, the registry of [slugs] holds
    exactly the identifiers of the outline, one per entry, whatever it held
    before. *)
Theorem X6_registry_holds_the_outline_ids
        (mdast mdast' : Root) (slugs slugs' : gmap string nat)
        (headings : list PageHeading) :
  exportContentHeadings mdast slugs = Ok (mdast', slugs', headings) ->
  dom slugs' = list_to_set (map heading_id headings) /\
  size slugs' = length headings.
Proof.
  intros E.
  destruct (exportContentHeadings_spec mdast slugs)
    as (ids & s1 & m1 & Eids & E1 & _ & _).
  rewrite E1 in E. injection E as _ <- <-.
  pose proof (slug_all_ids_length _ _ _ _ Eids) as Hlen.
  rewrite entries_ids by done.
  apply slug_all_fresh in Eids as (Hnd & _ & Hdom).
  rewrite dom_empty_L, (left_id_L ∅ (∪)) in Hdom.
  split; [done|].
  rewrite <- size_dom, Hdom, size_list_to_set by done.
  rewrite <- (length_map heading_id), entries_ids; done.
Qed.

(** X7. The outline has one entry per sluggable heading of the document,
    and every entry has a level from 1 to 6. *)
Theorem X7_outline_entries_and_levels
        (mdast mdast' : Root) (slugs slugs' : gmap string nat)
        (headings : list PageHeading) :
  exportContentHeadings mdast slugs = Ok (mdast', slugs', headings) ->
  length headings = length (sluggables (doc_elements mdast)) /\
  Forall (fun h => 1 <= heading_level h <= 6) headings.
Proof.
  intros E.
  destruct (exportContentHeadings_spec mdast slugs)
    as (ids & s1 & m1 & Eids & E1 & _ & _).
  rewrite E1 in E. injection E as _ _ <-.
  pose proof (slug_all_ids_length _ _ _ _ Eids) as Hlen.
  split.
  - by rewrite <- (length_map heading_level), entries_levels, length_map.
  - apply Forall_forall. intros h Hin.
    apply (list_elem_of_fmap_2 heading_level) in Hin.
    rewrite entries_levels in Hin by done.
    apply list_elem_of_fmap in Hin as (n & -> & Hn).
    apply list_elem_of_In, filter_In in Hn as [_ Hs].
    by apply sluggable_rank.
Qed.

(** X8. In the pipeline, rewriting the links does not change the outline:
    the [headings] binding and the registry are those of the heading pass
    on the untouched document. The other three bindings depend on the
    build context and the file path only. *)
Theorem X8_pipeline_exports
        (ctx : BuildContext) (ast mdast' : Root) (vfile_path : string)
        (st st' : gmap string nat * list string) :
  rehypePage ctx ast vfile_path st = Ok (mdast', st') ->
  let pathname := getPagePathname (opts ctx) vfile_path in
  let menuPathname := getMenuPathname ctx pathname in
  exists mdast0 headings rest,
    exportContentHeadings ast (fst st) = Ok (mdast0, fst st', headings) /\
    children mdast' =
      children (exportPageIndex ctx
                  (exportBreadcrumbs ctx
                     (exportPageAttributes ctx
                        (createExport (mkRoot rest) "headings"
                           (VArr (map heading_val headings)))
                        pathname)
                     pathname menuPathname)
                  menuPathname) /\
    length rest = length (children ast).
Proof.
  unfold rehypePage.
  destruct (updateContentLinks ast vfile_path (snd st))
    as [[m1 console]|] eqn:E1; simpl; [|done].
  destruct (exportContentHeadings_spec m1 (fst st))
    as (ids & s1 & m2 & Eids & E2 & _ & L2).
  rewrite E2. simpl. intros [= <- <-].
  destruct (exportContentHeadings_spec ast (fst st))
    as (ids0 & s0 & m0 & Eids0 & E0 & _ & _).
  assert (Forall2 (same_but "href") (doc_elements ast) (doc_elements m1))
    as Hfr.
  { pose proof (visit_frame _ _ _ _ _ E1) as F.
    eapply Forall2_impl; [exact F|].
    intros e e' (t & p & p' & ch & ch' & c0 & c1 & -> & -> & Hv & Ht).
    apply linkVisitor_frame in Hv as [Hp _]. by exists t, p, p', ch, ch'. }
  destruct (same_but_outline "href" _ _ ltac:(done) Hfr) as [Ht He].
  rewrite Ht, Eids0 in Eids. injection Eids as <- <-.
  rewrite He. eexists _, _, (children m2).
  split; [exact E0|]. split; [by destruct m2|].
  rewrite L2. by eapply visit_length.
Qed.

(** X9. [exportPageAttributes] exports the attributes of the first route
    with the page's pathname, an empty mapping when that route has none,
    and an empty mapping when no route has the pathname. *)
Theorem X9_attributes_of_first_route
        (ctx : BuildContext) (mdast : Root) (pathname : string) :
  (forall before route after,
      routes ctx = before ++ route :: after ->
      Forall (fun r => route_pathname r <> pathname) before ->
      route_pathname route = pathname ->
      exportPageAttributes ctx mdast pathname =
      createExport mdast "attributes"
        (VObj (default [] (route_attributes route)))) /\
  (Forall (fun r => route_pathname r <> pathname) (routes ctx) ->
   exportPageAttributes ctx mdast pathname =
   createExport mdast "attributes" (VObj [])).
Proof.
  assert (forall l, Forall (fun r => route_pathname r <> pathname) l ->
                    forall l',
                      find (fun p => String.eqb (route_pathname p) pathname)
                           (l ++ l') =
                      find (fun p => String.eqb (route_pathname p) pathname)
                           l') as Hskip.
  { induction 1 as [|r l Hr _ IH]; intros l'; [done|]. simpl.
    apply String.eqb_neq in Hr. by rewrite Hr. }
  unfold exportPageAttributes. split.
  - intros before route after -> Hb Hr. rewrite Hskip by done. simpl.
    apply String.eqb_eq in Hr. rewrite Hr. by destruct (route_attributes _).
  - intros Hall. specialize (Hskip _ Hall []). rewrite app_nil_r in Hskip.
    by rewrite Hskip.
Qed.

End OutlineFacts.

(** ** Truncation *)

Lemma prefix_trans (a : string) :
  forall b c, String.prefix a b = true -> String.prefix b c = true ->
              String.prefix a c = true.
Proof.
  induction a as [|x a IH]; intros b c; [intros; apply prefix_nil|].
  destruct b as [|y b]; [done|]. destruct c as [|z c]; [done|].
  rewrite !prefix_cons.
  destruct (ascii_dec x y) as [->|]; [|done].
  destruct (ascii_dec y z) as [->|]; [|done].
  destruct (ascii_dec z z); [|done]. apply IH.
Qed.

Lemma prefix_refl (a : string) : String.prefix a a = true.
Proof.
  induction a as [|x a IH]; [done|].
  rewrite prefix_cons. by destruct (ascii_dec x x).
Qed.

Lemma join_cons (c : ascii) (h : string) (l : list string) :
  Js.join "/" (String c h :: l) = String c (Js.join "/" (h :: l)).
Proof. by destruct l. Qed.

Lemma split_cons (s : string) : exists h t, Js.split "/" s = h :: t.
Proof.
  destruct s as [|c r]; simpl; [eauto|].
  destruct (Ascii.eqb c "/"); [eauto|].
  destruct (Js.split "/" r); eauto.
Qed.

Lemma split_unfold (c : ascii) (r : string) :
  Js.split "/" (String c r) =
  if Ascii.eqb c "/" then "" :: Js.split "/" r
  else match Js.split "/" r with
       | h :: t => String c h :: t
       | [] => [String c ""]
       end.
Proof. reflexivity. Qed.

(** Dropping the last segment of a pathname leaves a prefix of it. *)
Lemma truncate_prefix (s : string) : String.prefix (truncate s) s = true.
Proof.
  unfold truncate, Js.pop.
  induction s as [|c r IH]; [done|]. rewrite split_unfold.
  destruct (split_cons r) as (h & t & E). rewrite E in IH |- *.
  destruct (Ascii.eqb_spec c "/") as [->|Hc].
  - change (removelast ("" :: h :: t)) with ("" :: removelast (h :: t)).
    destruct (removelast (h :: t)) as [|x l] eqn:El; [done|].
    change (Js.join "/" ("" :: x :: l))
      with (String "/" (Js.join "/" (x :: l))).
    rewrite prefix_cons. by destruct (ascii_dec "/" "/").
  - destruct t as [|y t]; [done|].
    change (removelast (String c h :: y :: t))
      with (String c h :: removelast (y :: t)).
    change (removelast (h :: y :: t)) with (h :: removelast (y :: t)) in IH.
    rewrite join_cons, prefix_cons. by destruct (ascii_dec c c).
Qed.

(** ** The nearest menu section, continued *)

Section SectionFacts.
Context {host : Host}.

Lemma getMenuPathname_loop_sound (budget : nat) (ctx : BuildContext) :
  forall pathname found,
    getMenuPathname_loop budget ctx pathname = Some found ->
    registered ctx found = true /\
    String.prefix found pathname = true /\
    (found = "/" -> pathname = "/") /\
    exists k, k < budget /\ found = Nat.iter k truncate pathname.
Proof.
  induction budget as [|budget IH]; intros pathname found; [done|].
  change (getMenuPathname_loop (S budget) ctx pathname)
    with (match find (fun i => String.eqb (menu_pathname i) pathname)
                     (menus ctx) with
          | Some _ => Some pathname
          | None =>
              if String.eqb (truncate pathname) "/" then None
              else getMenuPathname_loop budget ctx (truncate pathname)
          end).
  pose proof (find_registered ctx pathname) as Hreg.
  destruct (find _ _).
  - intros [= <-]. split; [done|]. split; [apply prefix_refl|].
    split; [done|]. exists 0. split; [lia|done].
  - destruct (String.eqb_spec (truncate pathname) "/") as [|Hne]; [done|].
    intros Hl. apply IH in Hl as (Hr & Hp & Hroot & k & Hk & ->).
    split; [done|]. split.
    { eapply prefix_trans; [exact Hp|apply truncate_prefix]. }
    split; [intros E; by apply Hroot in E|].
    exists (S k). split; [lia|]. by rewrite Nat.iter_succ_r.
Qed.

(** X10. A section returned by [getMenuPathname] is registered in the
    menu table, is a prefix of the page's pathname, and is the pathname
    after at most 8 truncations; a page whose own pathname is registered
    gets that pathname. *)
Theorem X10_section_is_registered_ancestor
        (ctx : BuildContext) (pathname : string) :
  (forall found,
      getMenuPathname ctx pathname = Some found ->
      registered ctx found = true /\
      String.prefix found pathname = true /\
      exists k, k <= 8 /\ found = Nat.iter k truncate pathname) /\
  (registered ctx pathname = true ->
   getMenuPathname ctx pathname = Some pathname).
Proof.
  split.
  - intros found E.
    apply getMenuPathname_loop_sound in E as (Hr & Hp & _ & k & Hk & ->).
    split; [done|]. split; [done|]. exists k. split; [lia|done].
  - intros Hr. unfold getMenuPathname.
    change (getMenuPathname_loop 9 ctx pathname)
      with (match find (fun i => String.eqb (menu_pathname i) pathname)
                       (menus ctx) with
            | Some _ => Some pathname
            | None =>
                if String.eqb (truncate pathname) "/" then None
                else getMenuPathname_loop 8 ctx (truncate pathname)
            end).
    pose proof (find_registered ctx pathname) as Hf. rewrite Hr in Hf.
    by destruct (find _ _).
Qed.

(** X11. The root section [/] is never returned for a page other than
    [/]: a truncation that yields [/] ends the search before [/] is looked
    up. *)
Theorem X11_root_section_only_for_root_page
        (ctx : BuildContext) (pathname : string) :
  pathname <> "/" -> getMenuPathname ctx pathname <> Some "/".
Proof.
  intros Hne E.
  apply getMenuPathname_loop_sound in E as (_ & _ & Hroot & _). auto.
Qed.

End SectionFacts.

(** ** Breadcrumbs, continued *)

Section TrailFacts.
Context {host : Host}.

Lemma paths_chain (d : nat) :
  forall items p,
    In p (paths d items) <->
    chain items p /\ 1 <= length p <= d.
Proof.
  induction d as [|d IH]; intros items p.
  - simpl. split; [done|]. intros [_ ?]. lia.
  - simpl. rewrite in_flat_map. split.
    + intros (i & Hi & Hin). simpl in Hin. destruct Hin as [<-|Hin].
      * simpl. split; [done|lia].
      * apply in_map_iff in Hin as (q & <- & Hq).
        destruct (item_items i) as [sub|] eqn:Es; [|done].
        apply IH in Hq as [Hc Hl]. simpl. rewrite Es. simpl.
        split; [done|lia].
    + intros [Hc Hl]. destruct p as [|i q]; [simpl in Hl; lia|].
      destruct Hc as [Hi Hc]. exists i. split; [done|].
      destruct q as [|j q]; [by left|]. right.
      apply in_map. destruct (item_items i) as [sub|] eqn:Es.
      * apply IH. simpl in *. split; [done|lia].
      * simpl in Hc. by destruct Hc.
Qed.

(** X12. The breadcrumb trail is empty exactly when no path of at most
    three items, from a top-level item of the section down through
    [items], ends at an item whose [href] is the page's pathname;
    otherwise it is such a path, root first, crumb by crumb. *)
Theorem X12_trail_is_a_menu_path
        (ctx : BuildContext) (pathname : string)
        (menuPathname : option string) :
  let items := section_items ctx menuPathname in
  let trail := breadcrumbs_of ctx pathname menuPathname in
  (trail <> [] ->
   exists path,
     trail = map breadcrumb path /\ chain items path /\
     1 <= length path <= 3 /\ ends_at pathname path = true) /\
  (trail = [] ->
   forall path, chain items path -> 1 <= length path <= 3 ->
                ends_at pathname path = false).
Proof.
  intros items trail.
  assert (trail = match find (ends_at pathname) (paths 3 items) with
                  | Some path => map breadcrumb path
                  | None => []
                  end) as Ht.
  { unfold trail, items, breadcrumbs_of, section_items.
    destruct (find_menu ctx menuPathname) as [menu|]; [|done].
    destruct (menu_items menu) as [its|]; [|done].
    change (default [] (Some its)) with its. rewrite loopA_paths.
    by destruct (find (ends_at pathname) (paths 3 its)). }
  destruct (find (ends_at pathname) (paths 3 items)) as [path|] eqn:Ef.
  - apply find_some in Ef as [Hin He]. apply paths_chain in Hin as [Hc Hl].
    split; [intros _; by exists path|].
    intros E. rewrite Ht in E. destruct path; [simpl in Hl; lia|done].
  - split; [by rewrite Ht|]. intros _ path Hc Hl.
    eapply find_none in Ef; [exact Ef|]. by apply paths_chain.
Qed.

End TrailFacts.

(** ** Failure of the pipeline *)

Section FailureFacts.
Context {host : Host}.

Lemma updateContentLinks_typed mdast sourcePath console r :
  updateContentLinks mdast sourcePath console = Ok r ->
  Forall (fun e => href_typed e = true) (doc_elements mdast).
Proof.
  destruct r as [m' c']. intros E. apply visit_frame in E.
  induction E as [|e e' l l' He _ IH]; constructor; [|done].
  destruct He as (t & p & p' & ch & ch' & s0 & s1 & -> & _ & Hv & _).
  by eapply linkVisitor_ok_typed.
Qed.

Lemma updateContentLinks_error mdast sourcePath console err :
  updateContentLinks mdast sourcePath console = Throw err ->
  err = TypeError "trim is not a function".
Proof.
  intros E.
  apply (visit_error (linkVisitor sourcePath)
           (fun e => e = TypeError "trim is not a function")) in E; [done|].
  intros e s err' Hv. by apply linkVisitor_throws in Hv as [_ ?].
Qed.

(** X13. The pipeline completes exactly on the documents in which every
    anchor's [href] is absent, falsy or a string. On any other document it
    throws the [TypeError] of the failed [trim], and nothing else: the
    heading pass and the exports never fail, and the slug loop always
    ends. *)
Theorem X13_pipeline_fails_only_on_untrimmable_href
        (ctx : BuildContext) (ast : Root) (vfile_path : string)
        (st : gmap string nat * list string) :
  ((exists r, rehypePage ctx ast vfile_path st = Ok r) <->
   Forall (fun e => href_typed e = true) (doc_elements ast)) /\
  (forall err,
      rehypePage ctx ast vfile_path st = Throw err ->
      err = TypeError "trim is not a function").
Proof.
  split; [split|].
  - intros [r E]. unfold rehypePage in E.
    destruct (updateContentLinks ast vfile_path (snd st)) as [r1|] eqn:E1;
      [|done].
    by eapply updateContentLinks_typed.
  - intros Hty.
    destruct (rehypePage_completes ctx ast vfile_path st Hty)
      as (m' & st' & E). eauto.
  - intros err. unfold rehypePage.
    destruct (updateContentLinks ast vfile_path (snd st))
      as [[m1 console]|e1] eqn:E1; simpl.
    + destruct (exportContentHeadings_spec m1 (fst st))
        as (ids & s1 & m2 & _ & -> & _ & _). done.
    + intros [= <-]. by eapply updateContentLinks_error.
Qed.

End FailureFacts.

(** ** The properties at work on concrete documents *)

Lemma X1_witness :
  let host := Posix.host ["/docs/foo.mdx"] in
  let ast := mkRoot [heading "h1" "Hello World";
                     anchor "./foo.mdx" [Text "foo"];
                     anchor "./missing.md" []] in
  exists mdast' console',
    updateContentLinks ast "/docs/bar.mdx" [] = Ok (mdast', console') /\
    Forall2 (same_but "href") (doc_elements ast) (doc_elements mdast') /\
    length (children mdast') = 3.
Proof.
  intros host ast.
  destruct (updateContentLinks ast "/docs/bar.mdx" []) as [[m c]|e] eqn:E.
  - exists m, c. split; [reflexivity|].
    exact (X1_link_pass_touches_only_href _ _ _ _ _ E).
  - vm_compute in E. discriminate.
Defined.

Lemma X2_witness :
  let host := Posix.host ["/docs/foo.mdx"] in
  let ast := mkRoot [anchor "./foo.mdx" [Text "foo"];
                     anchor "./missing.md" []] in
  exists mdast' console',
    updateContentLinks ast "/docs/bar.mdx" ["earlier"] =
      Ok (mdast', console') /\
    exists w, console' = ["earlier"] ++ w /\
              Forall (is_link_warning "/docs/bar.mdx") w.
Proof.
  intros host ast.
  destruct (updateContentLinks ast "/docs/bar.mdx" ["earlier"])
    as [[m c]|e] eqn:E.
  - exists m, c. split; [reflexivity|].
    exact (X2_link_pass_appends_warnings _ _ _ _ _ E).
  - vm_compute in E. discriminate.
Defined.

Lemma X3_witness :
  let host := Posix.host [] in
  let ast := mkRoot [Element "a" (Some {["href" := PBool true]}) []] in
  updateContentLinks ast "/docs/bar.mdx" [] =
    Throw (TypeError "trim is not a function") /\
  ~ Forall (fun e => href_typed e = true) (doc_elements ast).
Proof.
  intros host ast.
  destruct (updateContentLinks ast "/docs/bar.mdx" []) as [r|e] eqn:E.
  - vm_compute in E. discriminate.
  - split.
    + f_equal.
      exact (proj2 (X3_link_pass_throws_on_untrimmable_href
                      ast "/docs/bar.mdx" []) e E).
    + intros Hty.
      destruct (proj2 (proj1 (X3_link_pass_throws_on_untrimmable_href
                                ast "/docs/bar.mdx" [])) Hty) as [r Hr].
      rewrite E in Hr. discriminate.
Defined.

Lemma X4_witness :
  let host := Posix.host [] in
  let ast := mkRoot [heading "h1" "Hello World";
                     anchor "./foo.mdx" [Text "foo"]] in
  exists mdast' slugs' headings,
    exportContentHeadings ast ∅ = Ok (mdast', slugs', headings) /\
    Forall2 (same_but "id") (doc_elements ast) (doc_elements mdast').
Proof.
  intros host ast.
  destruct (exportContentHeadings ast ∅) as [[[m s] h]|e] eqn:E.
  - exists m, s, h. split; [reflexivity|].
    exact (proj1 (X4_heading_pass_touches_only_id _ _ _ _ _ E)).
  - vm_compute in E. discriminate.
Defined.

Lemma X5_witness :
  let host := Posix.host [] in
  let ast := mkRoot [heading "h1" "Hello World"; heading "h2" "Hello World"] in
  exists mdast1 slugs1 headings,
    exportContentHeadings ast ∅ = Ok (mdast1, slugs1, headings) /\
    length headings = 2 /\
    exportContentHeadings mdast1 slugs1 =
      Ok (createExport mdast1 "headings" (VArr []), ∅, []).
Proof.
  intros host ast.
  destruct (exportContentHeadings ast ∅) as [[[m s] h]|e] eqn:E.
  - exists m, s, h. split; [reflexivity|]. split.
    + pose proof (f_equal (fun r => match r with
                                    | Ok (_, _, l) => length l
                                    | Throw _ => 0
                                    end) E) as Hl.
      vm_compute in Hl. symmetry. exact Hl.
    + exact (proj2 (X5_second_heading_pass_is_empty _ _ _ _ _ E)).
  - vm_compute in E. discriminate.
Defined.

Lemma X6_witness :
  let host := Posix.host [] in
  let ast := mkRoot [heading "h1" "Setup"; heading "h2" "Setup"] in
  exists mdast' slugs' headings,
    exportContentHeadings ast (<["stale" := 3]> ∅) =
      Ok (mdast', slugs', headings) /\
    dom slugs' = list_to_set (map heading_id headings) /\
    size slugs' = length headings.
Proof.
  intros host ast.
  destruct (exportContentHeadings ast (<["stale" := 3]> ∅))
    as [[[m s] h]|e] eqn:E.
  - exists m, s, h. split; [reflexivity|].
    exact (X6_registry_holds_the_outline_ids _ _ _ _ _ E).
  - vm_compute in E. discriminate.
Defined.

Lemma X7_witness :
  let host := Posix.host [] in
  let ast := mkRoot [heading "h1" "Setup"; heading "h7" "Not a heading";
                     heading "H6" "Deep"] in
  exists mdast' slugs' headings,
    exportContentHeadings ast ∅ = Ok (mdast', slugs', headings) /\
    length headings = length (sluggables (doc_elements ast)) /\
    Forall (fun h => 1 <= heading_level h <= 6) headings.
Proof.
  intros host ast.
  destruct (exportContentHeadings ast ∅) as [[[m s] h]|e] eqn:E.
  - exists m, s, h. split; [reflexivity|].
    exact (X7_outline_entries_and_levels _ _ _ _ _ E).
  - vm_compute in E. discriminate.
Defined.

Lemma X8_witness :
  let host := Posix.host ["/docs/foo.mdx"] in
  let ctx := mkContext host tt [] [mkMenu "/docs" None] in
  let ast := mkRoot [heading "h1" "Hello World";
                     anchor "./foo.mdx" [Text "foo"]] in
  exists mdast' st' mdast0 headings,
    rehypePage ctx ast "/docs/bar.mdx" (∅, []) = Ok (mdast', st') /\
    exportContentHeadings ast ∅ = Ok (mdast0, fst st', headings).
Proof.
  intros host ctx ast.
  destruct (rehypePage ctx ast "/docs/bar.mdx" (∅, [])) as [[m s]|e] eqn:E.
  - destruct (X8_pipeline_exports ctx ast m "/docs/bar.mdx" (∅, []) s E)
      as (m0 & hs & rest & E0 & _).
    exists m, s, m0, hs. split; [reflexivity|exact E0].
  - vm_compute in E. discriminate.
Defined.

Lemma X9_witness :
  let host := Posix.host [] in
  let first := mkRoute "/docs/bar" (Some [("title", VStr "Bar")]) in
  let second := mkRoute "/docs/bar" (Some [("title", VStr "Shadowed")]) in
  let ctx := mkContext host tt [mkRoute "/docs" None; first; second] [] in
  route_pathname first = "/docs/bar" /\
  exportPageAttributes ctx (mkRoot []) "/docs/bar" =
    createExport (mkRoot []) "attributes" (VObj [("title", VStr "Bar")]).
Proof.
  intros host first second ctx. split; [reflexivity|].
  apply (proj1 (X9_attributes_of_first_route ctx (mkRoot []) "/docs/bar")
           [mkRoute "/docs" None] first [second]).
  - reflexivity.
  - constructor; [discriminate|constructor].
  - reflexivity.
Defined.

Lemma X10_witness :
  let host := Posix.host [] in
  let ctx := mkContext host tt [] [mkMenu "/a" None; mkMenu "/a/b" None] in
  getMenuPathname ctx "/a/b/c/d" = Some "/a/b" /\
  registered ctx "/a/b" = true /\
  String.prefix "/a/b" "/a/b/c/d" = true.
Proof.
  intros host ctx.
  destruct (proj1 (X10_section_is_registered_ancestor ctx "/a/b/c/d")
              "/a/b" eq_refl) as (Hr & Hp & _).
  split; [reflexivity|]. split; [exact Hr|exact Hp].
Defined.

Lemma X11_witness :
  let host := Posix.host [] in
  let ctx := mkContext host tt [] [mkMenu "/" None] in
  "/a" <> "/" /\
  registered ctx "/" = true /\
  getMenuPathname ctx "/a" <> Some "/".
Proof.
  intros host ctx.
  assert ("/a" <> "/") as Hne by discriminate.
  split; [exact Hne|]. split; [reflexivity|].
  exact (X11_root_section_only_for_root_page ctx "/a" Hne).
Defined.

Lemma X12_witness :
  let host := Posix.host [] in
  let b := mkItem "B" "/a/b" None in
  let a := mkItem "A" "/a" (Some [b]) in
  let ctx := mkContext host tt [] [mkMenu "/a" (Some [a])] in
  breadcrumbs_of ctx "/a/b" (Some "/a") <> [] /\
  exists path,
    breadcrumbs_of ctx "/a/b" (Some "/a") = map breadcrumb path /\
    chain (section_items ctx (Some "/a")) path /\
    1 <= length path <= 3 /\ ends_at "/a/b" path = true.
Proof.
  intros host b a ctx.
  assert (breadcrumbs_of ctx "/a/b" (Some "/a") <> []) as Hne
    by discriminate.
  split; [exact Hne|].
  exact (proj1 (X12_trail_is_a_menu_path ctx "/a/b" (Some "/a")) Hne).
Defined.

Lemma X13_witness :
  let host := Posix.host [] in
  let ctx := mkContext host tt [] [] in
  let ast := mkRoot [heading "h1" "Hello"; anchor "#top" []] in
  Forall (fun e => href_typed e = true) (doc_elements ast) /\
  exists r, rehypePage ctx ast "/docs/bar.mdx" (∅, []) = Ok r.
Proof.
  intros host ctx ast.
  assert (Forall (fun e => href_typed e = true) (doc_elements ast)) as Hty
    by (repeat constructor).
  split; [exact Hty|].
  exact (proj2 (proj1 (X13_pipeline_fails_only_on_untrimmable_href
                         ctx ast "/docs/bar.mdx" (∅, []))) Hty).
Defined.

Lemma X14_witness :
  let host := Posix.host ["/docs/Guide.MDX"] in
  let pm : gmap string propval := {["href" := PStr "./Guide.MDX"]} in
  existsSync (path_resolve (path_dirname "/docs/bar.mdx") "./Guide.MDX")
    = true /\
  exists stem ext,
    "./Guide.MDX" = stem +:+ ext /\
    (Js.toLowerCase ext = ".mdx" \/ Js.toLowerCase ext = ".md") /\
    linkVisitor "/docs/bar.mdx" (Element "A" (Some pm) []) [] =
      Ok (Some (<["href" := PStr stem]> pm), []).
Proof.
  intros host pm. split; [reflexivity|].
  apply (linkVisitor_strips_extension "/docs/bar.mdx" "A" pm [] []
           "./Guide.MDX"); reflexivity.
Defined.
